(** * A shallow embedding of the pm2 process supervisor (index.js)

    The supervisor keeps a process registry [REG], starts `.js` and `.py`
    scripts as child processes, cuts their output into lines and reports
    their termination through a callback.

    Modelling conventions.
    - JavaScript values that flow through the code are values of [jsval];
      [truthy] is JavaScript's ToBoolean.  [VOpaque x] is a function or an
      object that the model does not look into, known by the identifier
      [x] bound to it.
    - Strings are [string]; a character stands for one code unit below 256.
    - The module-level [REG] and [ONSTOPPING], and the [op]/[er] variables
      captured by the closures that [captureOutput] creates, live in an
      explicit [state]; an entry refers to its closure by its address, so
      that the object pushed on [REG] and the object the handlers mutate
      are one.
    - What the code does to the outside (console, file system, child
      processes) and the calls the properties count (callback, [stop],
      [restart]) are recorded, in order, in a trace of [effect]s.
    - A JavaScript exception is a value of [exn]; a function that can
      throw returns a [result].
    - A chunk of output is given as the text that [op += data] makes of
      it: each chunk is turned into text on its own.
    - [launch c] in a trace is the call of [proc.spawn] or [proc.fork]
      with the request [c]; whether the call returns a handle or
      throws is up to the runtime. *)

From Stdlib Require Import List String Ascii ZArith Lia Bool Arith Sorted.
Import ListNotations.

Open Scope string_scope.
Open Scope list_scope.

(** ** JavaScript values and exceptions *)

Set Warnings "-register-all".

Inductive jsval : Type :=
| VUndef
| VNull
| VBool (b : bool)
| VNum (n : Z)
| VStr (s : string)
| VError (message : string)
| VArr (items : list jsval)
| VObj (props : list (string * jsval))
| VOpaque (binding : string).

(** ToBoolean. *)
Definition truthy (v : jsval) : bool :=
  match v with
  | VUndef | VNull => false
  | VBool b => b
  | VNum n => negb (n =? 0)%Z
  | VStr s => negb (s =? "")
  | VError _ | VArr _ | VObj _ | VOpaque _ => true
  end.

(** An optional string is [undefined] or a string; [as_truthy] keeps it
    when it passes an [if(...)] test. *)
Definition as_truthy (o : option string) : option string :=
  match o with
  | Some s => if s =? "" then None else Some s
  | None => None
  end.

Definition is_truthy (o : option string) : bool :=
  match as_truthy o with
  | Some _ => true
  | None => false
  end.

(** [InvalidArgType] and [InvalidArgValue] are the TypeErrors that the
    runtime's library throws with the codes ERR_INVALID_ARG_TYPE and
    ERR_INVALID_ARG_VALUE; they are known by the name of the argument
    that was refused. *)
Inductive exn : Type :=
| TypeError (message : string)
| SyntaxError (message : string)
| ReferenceError (identifier : string)
| InvalidArgType (argument : string)
| InvalidArgValue (argument : string).

Inductive result (A : Type) : Type :=
| Ok (a : A)
| Throw (e : exn).

Arguments Ok {A} a.
Arguments Throw {A} e.

Definition bind {A B : Type} (r : result A) (k : A -> result B) : result B :=
  match r with
  | Ok a => k a
  | Throw e => Throw e
  end.

Notation "x <- r ;; k" := (bind r (fun x => k))
  (at level 61, r at next level, right associativity).

(** ** String primitives of the runtime *)

Definition is_newline (c : ascii) : bool :=
  match nat_of_ascii c with
  | 10 | 13 => true
  | _ => false
  end.

(** White space and line terminators, as [String.prototype.trim] sees
    them, among the code units below 256. *)
Definition is_js_space (c : ascii) : bool :=
  match nat_of_ascii c with
  | 9 | 10 | 11 | 12 | 13 | 32 | 160 => true
  | _ => false
  end.

Fixpoint trimStart (s : string) : string :=
  match s with
  | EmptyString => EmptyString
  | String c r => if is_js_space c then trimStart r else s
  end.

Fixpoint trimEnd (s : string) : string :=
  match s with
  | EmptyString => EmptyString
  | String c r =>
      let r' := trimEnd r in
      if is_js_space c && (r' =? "") then EmptyString else String c r'
  end.

Definition trim (s : string) : string := trimEnd (trimStart s).

(** [f.split(/[\n\r]+/)]: the scan of [String.prototype.split] for this
    separator.  [seg] is the text since the end of the last match, and
    [in_run] says that the scan stands inside a match (a match of
    [[\n\r]+] is never empty and, being greedy, takes the whole run). *)
Fixpoint split_scan (seg : string) (in_run : bool) (s : string) : list string :=
  match s with
  | EmptyString => [seg]
  | String c r =>
      if is_newline c then
        if in_run then split_scan seg true r
        else seg :: split_scan EmptyString true r
      else split_scan (seg ++ String c EmptyString) false r
  end.

Definition split_newlines (f : string) : list string :=
  split_scan EmptyString false f.

(** [path.extname] (POSIX flavour), with the loop and the variables of
    the runtime's implementation. *)
Record extname_vars : Type := {
  startDot : Z;
  startPart : Z;
  end_ : Z;
  matchedSlash : bool;
  preDotState : Z
}.

Definition extname_init : extname_vars :=
  {| startDot := -1; startPart := 0; end_ := -1;
     matchedSlash := true; preDotState := 0 |}.

Definition is_slash (c : ascii) : bool := (nat_of_ascii c =? 47)%nat.
Definition is_dot (c : ascii) : bool := (nat_of_ascii c =? 46)%nat.

(** One turn of the loop at index [i] on a character that is not a
    slash. *)
Definition extname_char (i : Z) (c : ascii) (v : extname_vars) : extname_vars :=
  let v1 :=
    if (end_ v =? -1)%Z
    then {| startDot := startDot v; startPart := startPart v; end_ := i + 1;
            matchedSlash := false; preDotState := preDotState v |}
    else v in
  if is_dot c then
    if (startDot v1 =? -1)%Z
    then {| startDot := i; startPart := startPart v1; end_ := end_ v1;
            matchedSlash := matchedSlash v1; preDotState := preDotState v1 |}
    else if negb (preDotState v1 =? 1)%Z
    then {| startDot := startDot v1; startPart := startPart v1; end_ := end_ v1;
            matchedSlash := matchedSlash v1; preDotState := 1 |}
    else v1
  else if negb (startDot v1 =? -1)%Z
  then {| startDot := startDot v1; startPart := startPart v1; end_ := end_ v1;
          matchedSlash := matchedSlash v1; preDotState := -1 |}
  else v1.

(** [for (let i = path.length - 1; i >= 0; --i)]: [n] is [i + 1]. *)
Fixpoint extname_loop (path : string) (n : nat) (v : extname_vars) : extname_vars :=
  match n with
  | O => v
  | S i =>
      match String.get i path with
      | None => v
      | Some c =>
          if is_slash c then
            if negb (matchedSlash v)
            then {| startDot := startDot v; startPart := Z.of_nat i + 1;
                    end_ := end_ v; matchedSlash := matchedSlash v;
                    preDotState := preDotState v |}
            else extname_loop path i v
          else extname_loop path i (extname_char (Z.of_nat i) c v)
      end
  end.

Definition extname (path : string) : string :=
  let v := extname_loop path (String.length path) extname_init in
  if (startDot v =? -1)%Z
     || (end_ v =? -1)%Z
     || (preDotState v =? 0)%Z
     || ((preDotState v =? 1)%Z
         && (startDot v =? end_ v - 1)%Z
         && (startDot v =? startPart v + 1)%Z)
  then EmptyString
  else substring (Z.to_nat (startDot v)) (Z.to_nat (end_ v - startDot v)) path.

(** ** Data model *)

(** The callback a caller gives to [start] is an opaque function, known
    by a number; [DefaultCb] is [(err) => { if(err) console.error(err) }]. *)
Inductive callback : Type :=
| UserCb (f : nat)
| DefaultCb.

Inductive primitive : Type :=
| proc_spawn
| proc_fork.

Record spawn_options : Type := {
  windowsHide : option bool;
  silent : option bool;
  detached : bool;
  opts_cwd : option string;
  opts_env : option (list (string * string))
}.

(** The handle a launch yields, described by the request that made it. *)
Record child_process : Type := {
  via : primitive;
  command : jsval;
  argv : list jsval;
  options : spawn_options
}.

(** The object [pi]: the one a caller passes to [start], and the entry
    [start] builds from it.  An absent property is [None] or [VUndef];
    [flush] is the address of the closure that [captureOutput] made. *)
Record procinfo : Type := {
  name : option string;
  script : option string;
  cwd : option string;
  log : option string;
  restartAt : jsval;
  cb : option callback;
  _script : jsval;
  args : option (list jsval);
  env : option (list (string * string));
  child : option child_process;
  flush : option nat
}.

(** The variables [op] and [er] of one call of [captureOutput]. *)
Record capture : Type := {
  op : string;
  er : string
}.

Record state : Type := {
  REG : list procinfo;
  ONSTOPPING : option nat;
  heap : list capture
}.

Definition initial : state :=
  {| REG := []; ONSTOPPING := None; heap := [] |}.

(** [launch c] is the call of [proc.spawn] or [proc.fork] with the
    request [c], whatever comes of it. *)
Inductive effect : Type :=
| console_log (line : string)
| console_error (v : jsval)
| fs_appendFile (file : string) (data : string)
| fs_readFile (file : string)
| launch (c : child_process)
| call_cb (c : callback) (arg : jsval)
| call_stop (i : nat)
| call_restart (i : nat).

Inductive outcome : Type :=
| Done (st : state) (tr : list effect)
| Uncaught (e : exn) (st : state) (tr : list effect).

Definition state_of (o : outcome) : state :=
  match o with
  | Done st _ | Uncaught _ st _ => st
  end.

Definition trace_of (o : outcome) : list effect :=
  match o with
  | Done _ tr | Uncaught _ _ tr => tr
  end.

(** What the child process and the file system report back. *)
Inductive child_event : Type :=
| stdout_data (data : string)
| stderr_data (data : string)
| ev_error (err : jsval)
| ev_exit (code : option Z) (signal : option string)
| ev_close (code : option Z) (signal : option string).

Inductive readFile_outcome : Type :=
| readFile_throws (e : exn)
| readFile_calls_back (err : jsval) (data : string).

(** ** Helpers on the stores *)

Fixpoint set_nth {A : Type} (i : nat) (x : A) (l : list A) : list A :=
  match l, i with
  | [], _ => []
  | _ :: t, O => x :: t
  | h :: t, S j => h :: set_nth j x t
  end.

Definition set_REG (r : list procinfo) (st : state) : state :=
  {| REG := r; ONSTOPPING := ONSTOPPING st; heap := heap st |}.

Definition set_heap (h : list capture) (st : state) : state :=
  {| REG := REG st; ONSTOPPING := ONSTOPPING st; heap := h |}.

Definition set__script (v : jsval) (pi : procinfo) : procinfo :=
  {| name := name pi; script := script pi; cwd := cwd pi; log := log pi;
     restartAt := restartAt pi; cb := cb pi; _script := v; args := args pi;
     env := env pi; child := child pi; flush := flush pi |}.

(** [pi.args = a; pi.child = c; pi.flush = f]. *)
Definition launched (a : list jsval) (c : child_process) (f : nat)
    (pi : procinfo) : procinfo :=
  {| name := name pi; script := script pi; cwd := cwd pi; log := log pi;
     restartAt := restartAt pi; cb := cb pi; _script := _script pi;
     args := Some a; env := env pi; child := Some c; flush := Some f |}.

(** [pi.args = a]. *)
Definition with_args (a : list jsval) (pi : procinfo) : procinfo :=
  {| name := name pi; script := script pi; cwd := cwd pi; log := log pi;
     restartAt := restartAt pi; cb := cb pi; _script := _script pi;
     args := Some a; env := env pi; child := child pi; flush := flush pi |}.

(** [a === b] on names. *)
Definition name_eqb (a b : option string) : bool :=
  match a, b with
  | None, None => true
  | Some x, Some y => (x =? y)
  | _, _ => false
  end.

(** [REG.forEach((pi) => ...)] for a body that leaves [REG] alone: the
    body sees the index of the entry, which stands for the object. *)
Fixpoint forEach_from (i : nat) (l : list procinfo)
    (body : nat -> procinfo -> list effect) : list effect :=
  match l with
  | [] => []
  | pi :: rest => body i pi ++ forEach_from (S i) rest body
  end.

Definition forEach (l : list procinfo) (body : nat -> procinfo -> list effect)
  : list effect := forEach_from 0 l body.

(** ** Output capture *)

(** [cb(arg)]: the call, and what the default callback does. *)
Definition invoke (c : callback) (arg : jsval) : list effect :=
  call_cb c arg ::
  match c with
  | UserCb _ => []
  | DefaultCb => if truthy arg then [console_error arg] else []
  end.

(** [pi.cb && pi.cb(arg)]. *)
Definition invoke_cb (pi : procinfo) (arg : jsval) : list effect :=
  match cb pi with
  | Some c => invoke c arg
  | None => []
  end.

Definition out (pi : procinfo) (line : string) (iserr : bool) : effect :=
  match as_truthy (log pi) with
  | Some file => fs_appendFile file (line ++ String "010" EmptyString)
  | None => if iserr then console_error (VStr line) else console_log line
  end.

(** The identifiers in scope in the callback given to [fs.appendFile]:
    its parameter, those of [out] and [captureOutput], the module's
    declarations, the module wrapper's, and the globals the file uses. *)
Definition appendFile_callback_scope : list string :=
  ["err"; "pi"; "line"; "iserr";
   "op"; "er"; "flush"; "show_lines_1"; "out";
   "fs"; "path"; "proc"; "REG"; "ONSTOPPING";
   "start"; "restartByName"; "stopByName"; "stopall"; "onstopping";
   "restart"; "stop"; "getScriptHandler"; "launchPythonProcess";
   "launchJSProcess"; "captureOutput"; "handleExit";
   "exports"; "require"; "module"; "__filename"; "__dirname";
   "console"; "JSON"].

Definition identifier (scope : list string) (x : string) : result jsval :=
  if existsb (String.eqb x) scope then Ok (VOpaque x) else Throw (ReferenceError x).

(** [(err) => { if(err) { console.error(m); console.error(err) } }]. *)
Definition appendFile_callback (err : jsval) : result (list effect) :=
  if truthy err then
    m <- identifier appendFile_callback_scope "m" ;;
    Ok [console_error m; console_error err]
  else Ok [].

Definition show_lines_1 (pi : procinfo) (f : string) (iserr : bool)
  : list effect * string :=
  if f =? "" then ([], f)
  else
    let lines := split_newlines f in
    (map (fun l => out pi l iserr) (removelast lines), last lines EmptyString).

(** The listeners of ['data'].  [data] is the text that [op += data]
    appends: the chunk itself when the stream gives strings, and the
    decoding of the chunk alone when it gives a Buffer, whatever that
    makes of a character whose bytes are cut between two chunks. *)
Definition on_stdout_data (pi : procinfo) (c : capture) (data : string)
  : capture * list effect :=
  let (tr, rest) := show_lines_1 pi (op c ++ data) false in
  ({| op := rest; er := er c |}, tr).

Definition on_stderr_data (pi : procinfo) (c : capture) (data : string)
  : capture * list effect :=
  let (tr, rest) := show_lines_1 pi (er c ++ data) true in
  ({| op := op c; er := rest |}, tr).

(** The function [flush] of [captureOutput]. *)
Definition captureOutput_flush (pi : procinfo) (c : capture)
  : capture * list effect :=
  let t1 := if negb (op c =? "") && negb (trim (op c) =? "")
            then [out pi (trim (op c)) false] else [] in
  let t2 := if negb (er c =? "") && negb (trim (er c) =? "")
            then [out pi (trim (er c)) true] else [] in
  ({| op := EmptyString; er := EmptyString |}, t1 ++ t2).

(** Run a function of the closure of [pi] on its variables in the heap. *)
Definition with_capture (pi : procinfo) (st : state)
    (f : capture -> capture * list effect) : state * list effect :=
  match flush pi with
  | None => (st, [])
  | Some a =>
      match nth_error (heap st) a with
      | None => (st, [])
      | Some c => let (c', tr) := f c in (set_heap (set_nth a c' (heap st)) st, tr)
      end
  end.

(** [pi.flush && pi.flush()]. *)
Definition run_flush (pi : procinfo) (st : state) : state * list effect :=
  with_capture pi st (captureOutput_flush pi).

(** ** Exit handling *)

Definition truthy_code (code : option Z) : bool :=
  match code with
  | Some n => negb (n =? 0)%Z
  | None => false
  end.

Definition truthy_signal (signal : option string) : bool := is_truthy signal.

(** The listener of ['error']. *)
Definition on_error (pi : procinfo) (err : jsval) (st : state)
  : state * list effect :=
  let (st', tr) := run_flush pi st in
  (st', tr ++ invoke_cb pi err).

(** [on_done_1], the listener of ['exit'] and of ['close']. *)
Definition on_done_1 (pi : procinfo) (code : option Z) (signal : option string)
    (st : state) : state * list effect :=
  let (st', tr) := run_flush pi st in
  if truthy_code code || truthy_signal signal
  then (st', tr ++ invoke_cb pi (VStr "Exited with error"))
  else (st', tr ++ invoke_cb pi VUndef).

(** An event of the child of entry [i], given to the listeners that
    [captureOutput] and [handleExit] put on it. *)
Definition deliver (i : nat) (ev : child_event) (st : state)
  : state * list effect :=
  match nth_error (REG st) i with
  | None => (st, [])
  | Some pi =>
      match child pi with
      | None => (st, [])
      | Some _ =>
          match ev with
          | stdout_data data => with_capture pi st (fun c => on_stdout_data pi c data)
          | stderr_data data => with_capture pi st (fun c => on_stderr_data pi c data)
          | ev_error err => on_error pi err st
          | ev_exit code signal => on_done_1 pi code signal st
          | ev_close code signal => on_done_1 pi code signal st
          end
      end
  end.

(** ** The runtime's library *)

(** What the supervisor calls and does not define: [path.join],
    [fs.readFile] (what it does for a given path), [JSON.parse], and
    [proc.spawn] and [proc.fork]: [launch_throws] is the exception that
    the call throws for a request, if it throws instead of returning a
    handle. *)
Record runtime : Type := {
  path_join : string -> string -> string;
  readFile : string -> readFile_outcome;
  JSON_parse : string -> result jsval;
  launch_throws : child_process -> option exn
}.

Definition accepts (rt : runtime) (c : child_process) : bool :=
  match launch_throws rt c with
  | None => true
  | Some _ => false
  end.

(** ** Launch strategies *)

Inductive launcher : Type :=
| LaunchJS
| LaunchPython.

(** The table [handlers] of [getScriptHandler]. *)
Definition handlers : list (string * launcher) :=
  [(".js", LaunchJS); (".py", LaunchPython)].

Fixpoint lookup {A : Type} (k : string) (table : list (string * A)) : option A :=
  match table with
  | [] => None
  | (k', v) :: rest => if k =? k' then Some v else lookup k rest
  end.

(** [path.extname] refuses anything but a string. *)
Definition getScriptHandler (script : jsval) : result (option launcher) :=
  match script with
  | VStr s =>
      let ext := extname s in
      if negb (ext =? "") then Ok (lookup ext handlers) else Ok None
  | _ => Throw (InvalidArgType "path")
  end.

(** [captureOutput(pi)]: a new closure with empty [op] and [er]; its
    address is returned for [pi.flush]. *)
Definition captureOutput (st : state) : state * nat :=
  (set_heap (heap st ++ [{| op := EmptyString; er := EmptyString |}]) st,
   List.length (heap st)).

(** The end of both launch functions, once [opts] and [pi.args] are
    known: spawn, capture the output, handle the exit.  [i] is the place
    of [pi] in [REG].  [pi.args] is set before the call of [proc.spawn]
    or [proc.fork]; when the call throws, nothing after it is done. *)
Definition launch_with (rt : runtime) (p : primitive) (file : jsval)
    (a : list jsval) (opts : spawn_options) (i : nat) (pi : procinfo)
    (st : state) : outcome :=
  let c := {| via := p; command := file; argv := a; options := opts |} in
  match launch_throws rt c with
  | Some e =>
      Uncaught e (set_REG (set_nth i (with_args a pi) (REG st)) st) [launch c]
  | None =>
      let (st1, f) := captureOutput st in
      Done (set_REG (set_nth i (launched a c f pi) (REG st1)) st1) [launch c]
  end.

Definition launchPythonProcess (rt : runtime) (i : nat) (st : state) : outcome :=
  match nth_error (REG st) i with
  | None => Done st []
  | Some pi =>
      let opts := {| windowsHide := Some false; silent := None; detached := false;
                     opts_cwd := as_truthy (cwd pi); opts_env := env pi |} in
      let a := match args pi with
               | None => [_script pi]
               | Some more => _script pi :: more
               end in
      launch_with rt proc_spawn (VStr "python") a opts i pi st
  end.

Definition launchJSProcess (rt : runtime) (i : nat) (st : state) : outcome :=
  match nth_error (REG st) i with
  | None => Done st []
  | Some pi =>
      let opts := {| windowsHide := None; silent := Some true; detached := false;
                     opts_cwd := as_truthy (cwd pi); opts_env := env pi |} in
      let a := match args pi with
               | None => []
               | Some given => given
               end in
      launch_with rt proc_fork (_script pi) a opts i pi st
  end.

Definition run_launcher (rt : runtime) (h : launcher) : nat -> state -> outcome :=
  match h with
  | LaunchJS => launchJSProcess rt
  | LaunchPython => launchPythonProcess rt
  end.

(** The requests that the launch functions make for an entry, and what
    a launch leaves of the request [c] of the entry [pi] that was just
    pushed on [REG]. *)
Definition python_request (pi : procinfo) : child_process :=
  {| via := proc_spawn; command := VStr "python";
     argv := match args pi with
             | None => [_script pi]
             | Some more => _script pi :: more
             end;
     options := {| windowsHide := Some false; silent := None; detached := false;
                   opts_cwd := as_truthy (cwd pi); opts_env := env pi |} |}.

Definition js_request (pi : procinfo) : child_process :=
  {| via := proc_fork; command := _script pi;
     argv := match args pi with
             | None => []
             | Some given => given
             end;
     options := {| windowsHide := None; silent := Some true; detached := false;
                   opts_cwd := as_truthy (cwd pi); opts_env := env pi |} |}.

Definition launch_outcome (rt : runtime) (c : child_process) (pi : procinfo)
    (st : state) : outcome :=
  match launch_throws rt c with
  | Some e =>
      Uncaught e (set_REG (REG st ++ [with_args (argv c) pi]) st) [launch c]
  | None =>
      Done {| REG := REG st ++ [launched (argv c) c (List.length (heap st)) pi];
              ONSTOPPING := ONSTOPPING st;
              heap := heap st ++ [{| op := EmptyString; er := EmptyString |}] |}
        [launch c]
  end.

(** [cb()] after a launch that did not throw. *)
Definition then_callback (c : callback) (o : outcome) : outcome :=
  match o with
  | Done st tr => Done st (tr ++ invoke c VUndef)
  | Uncaught e st tr => Uncaught e st tr
  end.

(** [obj.main]. *)
Definition get_main (obj : jsval) : result jsval :=
  match obj with
  | VNull =>
      Throw (TypeError "Cannot read properties of null (reading 'main')")
  | VUndef =>
      Throw (TypeError "Cannot read properties of undefined (reading 'main')")
  | VObj props =>
      match lookup "main" props with
      | Some v => Ok v
      | None => Ok VUndef
      end
  | _ => Ok VUndef
  end.

(** The text a template literal makes of a script that is a string. *)
Definition template (v : jsval) : string :=
  match v with
  | VStr s => s
  | _ => EmptyString
  end.

Definition effective (cb : option nat) : callback :=
  match cb with
  | Some f => UserCb f
  | None => DefaultCb
  end.

(** ** The supervisor, over the file system and the runtime's library *)

(** The callback given to [fs.readFile]: the value it passes on to
    [cb], or what it throws.  It runs from the event loop, after
    [get_script_1] has returned. *)
Definition readFile_callback (rt : runtime) (err : jsval) (data : string)
  : result jsval :=
  if truthy err then Ok VUndef
  else
    obj <- JSON_parse rt data ;;
    get_main obj.

(** [get_script_1]: the value given to its callback, or the exception
    that escapes.  Only what is thrown while the [try] block runs (by
    [path.join] or by the call of [fs.readFile]) reaches [catch]. *)
Definition get_script_1 (rt : runtime) (pi : procinfo)
  : list effect * result jsval :=
  match as_truthy (script pi) with
  | Some s => ([], Ok (VStr s))
  | None =>
      match cwd pi with
      | None => ([], Ok VUndef)
      | Some dir =>
          let pkg := path_join rt dir "package.json" in
          match readFile rt pkg with
          | readFile_throws _ => ([], Ok VUndef)
          | readFile_calls_back err data =>
              ([fs_readFile pkg], readFile_callback rt err data)
          end
      end
  end.

(** The entry that [start] builds from the caller's object. *)
Definition entry_of (pi : procinfo) (c : callback) : procinfo :=
  {| name := name pi; script := script pi; cwd := cwd pi; log := log pi;
     restartAt := restartAt pi; cb := Some c; _script := VUndef;
     args := None; env := None; child := None; flush := None |}.

Definition prepend (tr : list effect) (o : outcome) : outcome :=
  match o with
  | Done st tr' => Done st (tr ++ tr')
  | Uncaught e st tr' => Uncaught e st (tr ++ tr')
  end.

(** The function [(script) => { ... }] that [start] gives to
    [get_script_1]. *)
Definition on_script (rt : runtime) (cb : callback) (pi : procinfo)
    (script : jsval) (st : state) : outcome :=
  let pi := set__script script pi in
  if negb (truthy script)
  then Done st (invoke cb (VStr "No script given to run"))
  else
    match getScriptHandler script with
    | Throw e => Uncaught e st []
    | Ok (Some handler) =>
        let i := List.length (REG st) in
        let st1 := set_REG (REG st ++ [pi]) st in
        match run_launcher rt handler i st1 with
        | Done st2 tr => Done st2 (tr ++ invoke cb VUndef)
        | Uncaught e st2 tr => Uncaught e st2 tr
        end
    | Ok None =>
        Done st (invoke cb (VStr ("Don't know how to start " ++ template script)))
    end.

Definition start (rt : runtime) (pi : option procinfo) (cb : option nat)
    (st : state) : outcome :=
  let cb := effective cb in
  match pi with
  | None => Done st (invoke cb (VStr "Cannot start process without any information"))
  | Some pi =>
      if negb (is_truthy (script pi)) && negb (is_truthy (cwd pi))
      then Done st (invoke cb (VStr "Cannot start process without 'script' or 'cwd'"))
      else
        let pi := entry_of pi cb in
        match get_script_1 rt pi with
        | (tr, Throw e) => Uncaught e st tr
        | (tr, Ok script) => prepend tr (on_script rt cb pi script st)
        end
  end.

Definition restart (i : nat) (pi : procinfo) : list effect := [call_restart i].

Definition stop (i : nat) (pi : procinfo) : list effect := [call_stop i].

Definition restartByName (name' : option string) (st : state) : state * list effect :=
  (st, forEach (REG st)
         (fun i pi => if name_eqb (name pi) name' then restart i pi else [])).

Definition stopByName (name' : option string) (st : state) : state * list effect :=
  (st, forEach (REG st)
         (fun i pi => if name_eqb (name pi) name' then stop i pi else [])).

Definition stopall (st : state) : state * list effect :=
  (st, forEach (REG st) stop).

Definition onstopping (hook : option nat) (st : state) : state * list effect :=
  ({| REG := REG st; ONSTOPPING := hook; heap := heap st |}, []).

(** ** Runs *)

(** What can happen to the supervisor: a call of one of its exports, an
    event of a child, or the completion of an [fs.appendFile]. *)
Inductive action : Type :=
| Start (pi : option procinfo) (cb : option nat)
| Restart (name' : option string)
| Stop (name' : option string)
| Stopall
| Onstopping (hook : option nat)
| Child (i : nat) (ev : child_event)
| Appended (err : jsval).

Definition done (r : state * list effect) : outcome :=
  Done (fst r) (snd r).

Definition step (rt : runtime) (a : action) (st : state) : outcome :=
  match a with
  | Start pi cb => start rt pi cb st
  | Restart n => done (restartByName n st)
  | Stop n => done (stopByName n st)
  | Stopall => done (stopall st)
  | Onstopping hook => done (onstopping hook st)
  | Child i ev => done (deliver i ev st)
  | Appended err =>
      match appendFile_callback err with
      | Ok tr => Done st tr
      | Throw e => Uncaught e st []
      end
  end.

(** A run ends at the first exception nobody catches. *)
Fixpoint run (rt : runtime) (acts : list action) (st : state) : outcome :=
  match acts with
  | [] => Done st []
  | a :: rest =>
      match step rt a st with
      | Done st' tr =>
          match run rt rest st' with
          | Done st'' tr' => Done st'' (tr ++ tr')
          | Uncaught e st'' tr' => Uncaught e st'' (tr ++ tr')
          end
      | Uncaught e st' tr => Uncaught e st' tr
      end
  end.

(** The same, when whoever calls the supervisor catches the exceptions
    and goes on. *)
Fixpoint run_through (rt : runtime) (acts : list action) (st : state)
  : state * list effect :=
  match acts with
  | [] => (st, [])
  | a :: rest =>
      let o := step rt a st in
      let (st', tr') := run_through rt rest (state_of o) in
      (st', trace_of o ++ tr')
  end.

(** ** The line assembler as the specification words it *)

Fixpoint all_chars (p : ascii -> bool) (s : string) : bool :=
  match s with
  | EmptyString => true
  | String c r => p c && all_chars p r
  end.

Definition no_newline (s : string) : bool :=
  all_chars (fun c => negb (is_newline c)) s.

(** A run of newline and carriage-return characters: not empty. *)
Definition newline_run (s : string) : bool :=
  negb (s =? "") && all_chars is_newline s.

Definition starts_with_newline (s : string) : bool :=
  match s with
  | EmptyString => false
  | String c _ => is_newline c
  end.

(** [splits_on_newline_runs f lines]: [f] is the segments [lines], none
    of which holds a newline, with a whole run of newlines between each
    two neighbours. *)
Inductive splits_on_newline_runs : string -> list string -> Prop :=
| last_segment : forall line,
    no_newline line = true ->
    splits_on_newline_runs line [line]
| next_segment : forall line sep rest lines,
    no_newline line = true ->
    newline_run sep = true ->
    starts_with_newline rest = false ->
    splits_on_newline_runs rest lines ->
    splits_on_newline_runs (line ++ sep ++ rest) (line :: lines).

(** The listener of ['data'] on a stream, run on successive chunks. *)
Fixpoint feed (on_data : capture -> string -> capture * list effect)
    (c : capture) (chunks : list string) : capture * list effect :=
  match chunks with
  | [] => (c, [])
  | data :: rest =>
      let (c1, tr1) := on_data c data in
      let (c2, tr2) := feed on_data c1 rest in
      (c2, tr1 ++ tr2)
  end.

Definition empty_capture : capture := {| op := EmptyString; er := EmptyString |}.

Definition LF : string := String "010" EmptyString.
Definition CR : string := String "013" EmptyString.

(** ** Reading traces *)

Fixpoint callback_calls (tr : list effect) : list (callback * jsval) :=
  match tr with
  | [] => []
  | call_cb c arg :: rest => (c, arg) :: callback_calls rest
  | _ :: rest => callback_calls rest
  end.

Fixpoint stop_calls (tr : list effect) : list nat :=
  match tr with
  | [] => []
  | call_stop i :: rest => i :: stop_calls rest
  | _ :: rest => stop_calls rest
  end.

Fixpoint launches (tr : list effect) : list child_process :=
  match tr with
  | [] => []
  | launch c :: rest => c :: launches rest
  | _ :: rest => launches rest
  end.

(** [start] returned and told its callback of no error. *)
Definition accepted (o : outcome) : bool :=
  match o with
  | Done _ tr =>
      match callback_calls tr with
      | [(_, VUndef)] => true
      | _ => false
      end
  | Uncaught _ _ _ => false
  end.

(** The events that end a child: error, exit, close. *)
Definition terminal (ev : child_event) : bool :=
  match ev with
  | ev_error _ | ev_exit _ _ | ev_close _ _ => true
  | stdout_data _ | stderr_data _ => false
  end.

(** What the callback is told on a terminal event. *)
Definition notification (ev : child_event) : jsval :=
  match ev with
  | ev_error err => err
  | ev_exit code signal | ev_close code signal =>
      if truthy_code code || truthy_signal signal
      then VStr "Exited with error" else VUndef
  | stdout_data _ | stderr_data _ => VUndef
  end.

(** Events of the child of entry [i], one after the other. *)
Fixpoint deliver_all (i : nat) (evs : list child_event) (st : state)
  : state * list effect :=
  match evs with
  | [] => (st, [])
  | ev :: rest =>
      let (st1, tr1) := deliver i ev st in
      let (st2, tr2) := deliver_all i rest st1 in
      (st2, tr1 ++ tr2)
  end.

(** ** The configuration errors of [start] *)

(** [configuration_error rt c pi msg]: the call [start(pi, c)] has
    nothing to run and [msg] says why: no parameters; neither a script
    nor a working directory; a script that resolves to nothing; a
    script whose extension is missing or not a known one. *)
Inductive configuration_error (rt : runtime) (c : callback)
  : option procinfo -> string -> Prop :=
| no_information :
    configuration_error rt c None
      "Cannot start process without any information"
| no_script_or_cwd : forall pi,
    is_truthy (script pi) = false ->
    is_truthy (cwd pi) = false ->
    configuration_error rt c (Some pi)
      "Cannot start process without 'script' or 'cwd'"
| no_script_given : forall pi v,
    is_truthy (script pi) || is_truthy (cwd pi) = true ->
    snd (get_script_1 rt (entry_of pi c)) = Ok v ->
    truthy v = false ->
    configuration_error rt c (Some pi) "No script given to run"
| unknown_script_type : forall pi s,
    is_truthy (script pi) || is_truthy (cwd pi) = true ->
    snd (get_script_1 rt (entry_of pi c)) = Ok (VStr s) ->
    s <> EmptyString ->
    extname s <> ".js" ->
    extname s <> ".py" ->
    configuration_error rt c (Some pi) ("Don't know how to start " ++ s).

(** ** Sample inputs *)

Definition DQ : string := String "034" EmptyString.

Definition manifest_text : string :=
  "{" ++ DQ ++ "main" ++ DQ ++ ":" ++ DQ ++ "index.js" ++ DQ ++ "}".

(** A string argument that holds a NUL character. *)
Definition nul_in (v : jsval) : bool :=
  match v with
  | VStr s => negb (all_chars (fun c => negb (nat_of_ascii c =? 0)%nat) s)
  | _ => false
  end.

(** A file system with three directories that hold a [package.json]:
    [app] (a manifest naming [index.js]), [broken] (cut short) and
    [null] (the text [null]); nothing else can be read.  A launch is
    refused when the script holds a NUL character: the module path of
    [proc.fork], the first argument of [proc.spawn]. *)
Definition sample_runtime : runtime :=
  {| path_join := fun dir file => (dir ++ "/" ++ file)%string;
     readFile := fun file =>
       if file =? "app/package.json" then readFile_calls_back VNull manifest_text
       else if file =? "broken/package.json" then readFile_calls_back VNull "{"
       else if file =? "null/package.json" then readFile_calls_back VNull "null"
       else readFile_calls_back (VError "ENOENT: no such file or directory") "";
     JSON_parse := fun text =>
       if text =? manifest_text then Ok (VObj [("main", VStr "index.js")])
       else if text =? "null" then Ok VNull
       else Throw (SyntaxError "Unexpected end of JSON input");
     launch_throws := fun c =>
       match via c, argv c with
       | proc_fork, _ =>
           if nul_in (command c) then Some (InvalidArgValue "modulePath") else None
       | proc_spawn, v :: _ =>
           if nul_in v then Some (InvalidArgValue "args[0]") else None
       | proc_spawn, [] => None
       end |}.

(** A caller's object with nothing but the given properties. *)
Definition params (name' script' cwd' log' : option string)
    (args' : option (list jsval)) (env' : option (list (string * string)))
  : procinfo :=
  {| name := name'; script := script'; cwd := cwd'; log := log';
     restartAt := VUndef; cb := None; _script := VUndef;
     args := args'; env := env'; child := None; flush := None |}.

(** [start({name: 'p', script: './ok.js'}, f7)] on an empty registry. *)
Definition running_ok : state :=
  state_of (start sample_runtime
              (Some (params (Some "p") (Some "./ok.js") None None None None))
              (Some 7) initial).

(** [start({name: 'p', script: './bad.py'}, f7)] on an empty registry. *)
Definition running_bad : state :=
  state_of (start sample_runtime
              (Some (params (Some "p") (Some "./bad.py") None None None None))
              (Some 7) initial).

(** [start({name: 'fail2', script: './tester'})], as the test file has it. *)
Definition fail2 : procinfo :=
  params (Some "fail2") (Some "./tester") None None None None.

(** [start({cwd: 'broken'})]: the manifest is there and is not JSON. *)
Definition broken_manifest : procinfo :=
  params None None (Some "broken") None None None.

(** [start({script: './a.py', args: ['-v'], env: {X: '1'}})]. *)
Definition with_args_and_env : procinfo :=
  params None (Some "./a.py") None None (Some [VStr "-v"]) (Some [("X", "1")]).

(** [start({name: 'python-process', script: ..., log: 'process2.log'})]. *)
Definition logged : procinfo :=
  params (Some "python-process")
    (Some "./tester/with-new/process1/process2/serve.py") None
    (Some "process2.log") None None.

(** ** The two properties that the code does not have, as stated *)

(** The completion callback is called exactly once over the events
    [evs] of the child of entry [i]. *)
Definition calls_back_exactly_once (i : nat) (evs : list child_event)
    (st : state) : Prop :=
  List.length (callback_calls (snd (deliver_all i evs st))) = 1.


(** ** The entries of the registry *)

(** An entry of the registry has its callback; it has its child and
    the closure of its output capture, or, when its launch threw,
    neither. *)
Definition wired_entry (st : state) (pi : procinfo) : Prop :=
  (exists c, cb pi = Some c) /\
  ((child pi = None /\ flush pi = None)
   \/ ((exists ch, child pi = Some ch) /\
       (exists a, flush pi = Some a /\ a < List.length (heap st)))).

Definition wired (st : state) : Prop := Forall (wired_entry st) (REG st).

(** ** The invariant of the loop of [extname] *)

(** What the loop of [extname] keeps true with [n] characters left to
    visit: [end_] and [startDot], once set, are places already visited,
    [startDot] is before [end_] and holds a dot. *)
Definition extname_inv (path : string) (n : nat) (v : extname_vars) : Prop :=
  ((end_ v = -1) \/ (Z.of_nat n < end_ v))%Z /\
  ((startDot v = -1)%Z \/
   ((Z.of_nat n <= startDot v)%Z /\ (startDot v < end_ v)%Z /\
    exists c, String.get (Z.to_nat (startDot v)) path = Some c /\ is_dot c = true)).

(** ** More readings of traces and states *)

Fixpoint restart_calls (tr : list effect) : list nat :=
  match tr with
  | [] => []
  | call_restart i :: rest => i :: restart_calls rest
  | _ :: rest => restart_calls rest
  end.

(** What a child's output becomes: a line on the console or in a file. *)
Definition is_output (e : effect) : bool :=
  match e with
  | console_log _ | console_error _ | fs_appendFile _ _ => true
  | _ => false
  end.

Definition is_console_log (e : effect) : bool :=
  match e with
  | console_log _ => true
  | _ => false
  end.

(** The hook that a run of [acts] leaves in [ONSTOPPING], from [h]. *)
Fixpoint last_hook (acts : list action) (h : option nat) : option nat :=
  match acts with
  | [] => h
  | Onstopping h' :: rest => last_hook rest h'
  | _ :: rest => last_hook rest h
  end.

(** The closures belong to one entry each: the closure of an entry is
    in the heap and is the closure of no other entry. *)
Definition separate (st : state) : Prop :=
  forall k pk a,
    nth_error (REG st) k = Some pk ->
    flush pk = Some a ->
    a < List.length (heap st) /\
    forall k' pk',
      nth_error (REG st) k' = Some pk' -> flush pk' = Some a -> k' = k.

Definition has_child (pi : procinfo) : bool :=
  match child pi with
  | Some _ => true
  | None => false
  end.

(** No pending fragment holds a newline. *)
Definition clean_capture (c : capture) : bool :=
  no_newline (op c) && no_newline (er c).

Definition clean (st : state) : Prop :=
  Forall (fun c => clean_capture c = true) (heap st).

(** A write to a log file that is one line: text without a newline,
    then one newline. *)
Definition line_write (e : effect) : Prop :=
  match e with
  | fs_appendFile _ data =>
      exists line, data = (line ++ LF)%string /\ no_newline line = true
  | _ => True
  end.

(** A text without its newline and carriage-return characters, and the
    texts of a list put end to end. *)
Fixpoint strip_newlines (s : string) : string :=
  match s with
  | EmptyString => EmptyString
  | String c r => if is_newline c then strip_newlines r else String c (strip_newlines r)
  end.

Fixpoint join (ls : list string) : string :=
  match ls with
  | [] => EmptyString
  | l :: rest => l ++ join rest
  end.

(** ** More sample inputs *)

(** The manifest [{"main":42}], and a file system where every
    [package.json] holds it; no launch is refused. *)
Definition numeric_manifest_text : string :=
  "{" ++ DQ ++ "main" ++ DQ ++ ":42}".

Definition numeric_main_runtime : runtime :=
  {| path_join := fun dir file => (dir ++ "/" ++ file)%string;
     readFile := fun _ => readFile_calls_back VNull numeric_manifest_text;
     JSON_parse := fun text =>
       if text =? numeric_manifest_text then Ok (VObj [("main", VNum 42)])
       else if text =? "null" then Ok VNull
       else Throw (SyntaxError "Unexpected end of JSON input");
     launch_throws := fun _ => None |}.

(** A file system with nothing in it; launches as in
    [sample_runtime]. *)
Definition empty_runtime : runtime :=
  {| path_join := fun dir file => (dir ++ "/" ++ file)%string;
     readFile := fun _ =>
       readFile_calls_back (VError "ENOENT: no such file or directory") "";
     JSON_parse := JSON_parse sample_runtime;
     launch_throws := launch_throws sample_runtime |}.

(** [start({name: 'nodejs-process', cwd: 'app'})]. *)
Definition from_manifest : procinfo :=
  params (Some "nodejs-process") None (Some "app") None None None.

(** Two children: [p] runs [./ok.js] and [q] runs [./bad.py]. *)
Definition two_starts : list action :=
  [Start (Some (params (Some "p") (Some "./ok.js") None None None None)) None;
   Start (Some (params (Some "q") (Some "./bad.py") None None None None)) None].

Definition two_running : state :=
  state_of (run sample_runtime two_starts initial).

(** The child that [start] asks for with [with_args_and_env]. *)
Definition python_child : child_process :=
  {| via := proc_spawn; command := VStr "python"; argv := [VStr "./a.py"];
     options := {| windowsHide := Some false; silent := None; detached := false;
                   opts_cwd := None; opts_env := None |} |}.

(** A script whose name holds a NUL character, and three children, the
    launch of the second of which is refused. *)
Definition nul_script : string := "a" ++ String "000" ".py".

Definition nul_params : procinfo :=
  params (Some "n") (Some nul_script) None None None None.


Definition three_starts : list action :=
  [Start (Some (params (Some "p") (Some "./ok.js") None None None None)) None;
   Start (Some nul_params) None;
   Start (Some (params (Some "q") (Some "./bad.py") None None None None)) None].

(** Three chunks, the second cut inside a CR LF pair. *)
Definition cut_chunks : list string :=
  ["ab"; ("c" ++ LF ++ "def" ++ CR)%string; (LF ++ "ghi")%string].

(** ** Facts about strings *)

Lemma append_empty_r (s : string) : (s ++ "")%string = s.
Proof.
  induction s as [|c s IH]; simpl; [reflexivity | now rewrite IH].
Qed.

Lemma append_assoc (a b c : string) :
  ((a ++ b) ++ c)%string = (a ++ (b ++ c))%string.
Proof.
  induction a as [|x a IH]; simpl; [reflexivity | now rewrite IH].
Qed.

Lemma all_chars_append (p : ascii -> bool) (a b : string) :
  all_chars p (a ++ b) = all_chars p a && all_chars p b.
Proof.
  induction a as [|x a IH]; simpl; [reflexivity|].
  rewrite IH. now rewrite andb_assoc.
Qed.

(** Inside a match the scan skips the rest of the run of newlines. *)
Lemma split_scan_in_run (s : string) :
  exists run rest,
    s = (run ++ rest)%string /\ all_chars is_newline run = true /\
    starts_with_newline rest = false /\
    String.length rest <= String.length s /\
    split_scan "" true s = split_scan "" false rest.
Proof.
  induction s as [|c s IH].
  - exists "", "". simpl. repeat split; auto.
  - destruct (is_newline c) eqn:Hc.
    + destruct IH as (run & rest & Hs & Hrun & Hrest & Hlen & Hscan).
      exists (String c run), rest. simpl. rewrite Hc. simpl.
      repeat split; auto. now rewrite Hs.
    + exists "", (String c s). simpl. rewrite Hc. repeat split; auto.
Qed.

Lemma split_scan_spec (n : nat) :
  forall s seg,
    String.length s <= n ->
    no_newline seg = true ->
    splits_on_newline_runs (seg ++ s) (split_scan seg false s).
Proof.
  induction n as [|n IH]; intros s seg Hlen Hseg.
  - destruct s; simpl in Hlen; [|lia].
    simpl. rewrite append_empty_r. now constructor.
  - destruct s as [|c s].
    + simpl. rewrite append_empty_r. now constructor.
    + simpl in Hlen. simpl. destruct (is_newline c) eqn:Hc.
      * destruct (split_scan_in_run s) as (run & rest & Hs & Hrun & Hrest & Hl & Hscan).
        rewrite Hscan.
        replace (seg ++ String c s)%string with (seg ++ String c run ++ rest)%string
          by (simpl; now rewrite Hs).
        apply next_segment; auto.
        -- unfold newline_run. simpl. now rewrite Hc, Hrun.
        -- apply (IH rest ""); [lia | reflexivity].
      * replace (seg ++ String c s)%string with ((seg ++ String c "") ++ s)%string
          by (rewrite append_assoc; reflexivity).
        apply IH; [lia|].
        unfold no_newline. rewrite all_chars_append. simpl.
        unfold no_newline in Hseg. now rewrite Hseg, Hc.
Qed.

Lemma split_newlines_spec (f : string) :
  splits_on_newline_runs f (split_newlines f).
Proof.
  apply (split_scan_spec (String.length f) f ""); [lia | reflexivity].
Qed.

Lemma show_lines_1_spec (pi : procinfo) (f : string) (iserr : bool) :
  exists lines,
    splits_on_newline_runs f lines /\
    show_lines_1 pi f iserr
    = (map (fun l => out pi l iserr) (removelast lines), last lines "").
Proof.
  unfold show_lines_1. destruct (String.eqb_spec f "") as [->|Hf].
  - exists [""]. split; [now constructor | reflexivity].
  - exists (split_newlines f). split; [apply split_newlines_spec | reflexivity].
Qed.

(** ** The line assembler *)

(** C6: the chunks "ab", "c\ndef\r\n", "ghi" on one stream emit the lines
    "abc" and "def", in that order, and leave "ghi" pending until [flush]
    emits it; in general a chunk is appended to the pending text, the
    text is split on every run of newline and carriage-return
    characters, every segment but the last is emitted and the last one
    is the new pending text. *)
Theorem line_assembler_emits_complete_lines :
  (forall pi,
      let fed := feed (on_stdout_data pi) empty_capture
                   ["ab"; ("c" ++ LF ++ "def" ++ CR ++ LF)%string; "ghi"] in
      snd fed = [out pi "abc" false; out pi "def" false] /\
      fst fed = {| op := "ghi"; er := "" |} /\
      snd (captureOutput_flush pi (fst fed)) = [out pi "ghi" false])
  /\ (forall pi c data,
         exists lines,
           splits_on_newline_runs (op c ++ data) lines /\
           on_stdout_data pi c data
           = ({| op := last lines ""; er := er c |},
              map (fun l => out pi l false) (removelast lines)))
  /\ (forall pi c data,
         exists lines,
           splits_on_newline_runs (er c ++ data) lines /\
           on_stderr_data pi c data
           = ({| op := op c; er := last lines "" |},
              map (fun l => out pi l true) (removelast lines))).
Proof.
  split; [|split].
  - intros pi. repeat split; reflexivity.
  - intros pi c data. unfold on_stdout_data.
    destruct (show_lines_1_spec pi (op c ++ data) false) as (lines & Hs & ->).
    exists lines. split; [exact Hs | reflexivity].
  - intros pi c data. unfold on_stderr_data.
    destruct (show_lines_1_spec pi (er c ++ data) true) as (lines & Hs & ->).
    exists lines. split; [exact Hs | reflexivity].
Qed.

(** ** Flushing *)

Lemma trimEnd_keeps_head (c : ascii) (r : string) :
  is_js_space c = false -> trimEnd (String c r) = String c (trimEnd r).
Proof.
  intros Hc. simpl. now rewrite Hc.
Qed.

Lemma trimStart_blank (s : string) :
  all_chars is_js_space s = true -> trimStart s = "".
Proof.
  induction s as [|c s IH]; simpl; [reflexivity|].
  intros H. apply andb_true_iff in H as [Hc Hs]. rewrite Hc. auto.
Qed.

Lemma trimStart_not_blank (s : string) :
  all_chars is_js_space s = false ->
  exists c r, trimStart s = String c r /\ is_js_space c = false.
Proof.
  induction s as [|c s IH]; simpl; [discriminate|].
  destruct (is_js_space c) eqn:Hc; simpl; [exact IH|].
  intros _. now exists c, s.
Qed.

(** [op && op.trim()] fails exactly on text made of white space only. *)
Lemma pending_test (s : string) :
  negb (s =? "") && negb (trim s =? "") = negb (all_chars is_js_space s).
Proof.
  destruct (all_chars is_js_space s) eqn:Hs.
  - unfold trim. rewrite (trimStart_blank s Hs). simpl. apply andb_false_r.
  - destruct (trimStart_not_blank s Hs) as (c & r & Ht & Hc).
    unfold trim. rewrite Ht, (trimEnd_keeps_head c r Hc).
    destruct s; [discriminate Hs | reflexivity].
Qed.

Lemma nth_error_set_nth {A : Type} (l : list A) :
  forall i x y, nth_error l i = Some y -> nth_error (set_nth i x l) i = Some x.
Proof.
  induction l as [|h t IH]; intros [|i] x y H; simpl in *; try discriminate; eauto.
Qed.

Lemma set_nth_twice {A : Type} (l : list A) :
  forall i x y, set_nth i x (set_nth i y l) = set_nth i x l.
Proof.
  induction l as [|h t IH]; intros [|i] x y; simpl; try reflexivity.
  now rewrite IH.
Qed.

Lemma length_set_nth {A : Type} (l : list A) :
  forall i x, List.length (set_nth i x l) = List.length l.
Proof.
  induction l as [|h t IH]; intros [|i] x; simpl; auto.
Qed.

(** C7: [flush] twice in a row, with no data in between, emits each
    pending fragment that is not blank once (trimmed), in the first
    call; the first call empties both accumulators and the second call
    emits nothing and changes nothing. *)
Theorem flush_twice_emits_once :
  (forall pi c,
      let first := captureOutput_flush pi c in
      let second := captureOutput_flush pi (fst first) in
      fst first = empty_capture /\
      snd first
      = (if all_chars is_js_space (op c) then [] else [out pi (trim (op c)) false])
        ++ (if all_chars is_js_space (er c) then [] else [out pi (trim (er c)) true]) /\
      snd second = [] /\
      fst second = fst first /\
      snd first ++ snd second = snd first)
  /\ (forall pi st,
         let first := run_flush pi st in
         let second := run_flush pi (fst first) in
         snd second = [] /\ fst second = fst first).
Proof.
  split.
  - intros pi c. cbv zeta. unfold captureOutput_flush. simpl.
    rewrite !pending_test, app_nil_r.
    repeat split.
    destruct (all_chars is_js_space (op c)), (all_chars is_js_space (er c));
      reflexivity.
  - intros pi st. cbv zeta. unfold run_flush, with_capture.
    destruct (flush pi) as [a|]; [|split; reflexivity].
    destruct (nth_error (heap st) a) as [c|] eqn:Hc.
    + unfold captureOutput_flush. cbn [fst snd set_heap heap].
      rewrite (nth_error_set_nth _ _ _ _ Hc).
      cbn. unfold set_heap. cbn. rewrite set_nth_twice. split; reflexivity.
    + cbn. rewrite Hc. split; reflexivity.
Qed.

(** ** Exit handling *)

Lemma callback_calls_app (a b : list effect) :
  callback_calls (a ++ b) = callback_calls a ++ callback_calls b.
Proof.
  induction a as [|x a IH]; simpl; [reflexivity|].
  destruct x; simpl; now rewrite ?IH.
Qed.

Lemma callback_calls_out (pi : procinfo) (line : string) (iserr : bool) :
  callback_calls [out pi line iserr] = [].
Proof.
  unfold out. destruct (as_truthy (log pi)); [reflexivity|].
  destruct iserr; reflexivity.
Qed.

Lemma callback_calls_flush (pi : procinfo) (c : capture) :
  callback_calls (snd (captureOutput_flush pi c)) = [].
Proof.
  unfold captureOutput_flush. cbn [snd]. rewrite callback_calls_app.
  destruct (negb (op c =? "") && negb (trim (op c) =? ""));
    destruct (negb (er c =? "") && negb (trim (er c) =? ""));
    rewrite ?callback_calls_out; reflexivity.
Qed.

Lemma REG_with_capture (pi : procinfo) (st : state) f :
  REG (fst (with_capture pi st f)) = REG st.
Proof.
  unfold with_capture. destruct (flush pi) as [a|]; [|reflexivity].
  destruct (nth_error (heap st) a) as [c|]; [|reflexivity].
  destruct (f c). reflexivity.
Qed.

Lemma callback_calls_run_flush (pi : procinfo) (st : state) :
  callback_calls (snd (run_flush pi st)) = [].
Proof.
  unfold run_flush, with_capture. destruct (flush pi) as [a|]; [|reflexivity].
  destruct (nth_error (heap st) a) as [c|]; [|reflexivity].
  pose proof (callback_calls_flush pi c) as H.
  destruct (captureOutput_flush pi c). exact H.
Qed.

Lemma callback_calls_invoke (c : callback) (arg : jsval) :
  callback_calls (invoke c arg) = [(c, arg)].
Proof.
  unfold invoke. destruct c; simpl; [reflexivity|].
  destruct (truthy arg); reflexivity.
Qed.

Lemma REG_deliver (i : nat) (ev : child_event) (st : state) :
  REG (fst (deliver i ev st)) = REG st.
Proof.
  unfold deliver. destruct (nth_error (REG st) i) as [pi|]; [|reflexivity].
  destruct (child pi); [|reflexivity].
  destruct ev; try apply REG_with_capture;
    unfold on_error, on_done_1, run_flush;
    pose proof (REG_with_capture pi st (captureOutput_flush pi)) as H;
    destruct (with_capture pi st (captureOutput_flush pi)); cbn in *;
    try destruct (truthy_code code || truthy_signal signal); exact H.
Qed.

Lemma deliver_terminal (i : nat) (ev : child_event) (st : state)
    (pi : procinfo) (ch : child_process) (c : callback) :
  nth_error (REG st) i = Some pi ->
  child pi = Some ch ->
  cb pi = Some c ->
  terminal ev = true ->
  callback_calls (snd (deliver i ev st)) = [(c, notification ev)].
Proof.
  intros Hpi Hch Hcb Hev. unfold deliver. rewrite Hpi, Hch.
  pose proof (callback_calls_run_flush pi st) as Hf.
  destruct ev; try discriminate Hev;
    unfold on_error, on_done_1, notification;
    destruct (run_flush pi st) as [st' tr]; cbn [snd] in *;
    try destruct (truthy_code code || truthy_signal signal); cbn [snd];
    rewrite callback_calls_app, Hf; unfold invoke_cb; rewrite Hcb;
    apply callback_calls_invoke.
Qed.

(** C1, as the code has it: the listeners of error, exit and close keep
    no state; each terminal event delivered to an entry flushes and
    calls the completion callback, so the callback is called once per
    event, in order, and as many times as there are events. *)
Theorem handleExit_calls_back_on_every_event :
  forall (st : state) (i : nat) (pi : procinfo) (ch : child_process)
         (c : callback) (evs : list child_event),
    nth_error (REG st) i = Some pi ->
    child pi = Some ch ->
    cb pi = Some c ->
    forallb terminal evs = true ->
    callback_calls (snd (deliver_all i evs st))
    = map (fun ev => (c, notification ev)) evs
    /\ List.length (callback_calls (snd (deliver_all i evs st)))
       = List.length evs.
Proof.
  intros st i pi ch c evs Hpi Hch Hcb Hevs.
  assert (Hcalls : callback_calls (snd (deliver_all i evs st))
                   = map (fun ev => (c, notification ev)) evs).
  { revert st Hpi. induction evs as [|ev evs IH]; intros st Hpi; [reflexivity|].
    simpl in Hevs. apply andb_true_iff in Hevs as [Hev Hevs].
    simpl. pose proof (deliver_terminal i ev st pi ch c Hpi Hch Hcb Hev) as Hd.
    pose proof (REG_deliver i ev st) as Hr.
    destruct (deliver i ev st) as [st1 tr1]. cbn [fst snd] in *.
    assert (Hpi1 : nth_error (REG st1) i = Some pi) by now rewrite Hr.
    specialize (IH Hevs st1 Hpi1).
    destruct (deliver_all i evs st1) as [st2 tr2]. cbn [snd] in *.
    now rewrite callback_calls_app, Hd, IH. }
  split; [exact Hcalls|].
  rewrite Hcalls. apply length_map.
Qed.

(** ** Operations by name *)

Lemma forEach_stop_by_name (n : option string) (l : list procinfo) :
  forall i,
    let tr := forEach_from i l
                (fun i pi => if name_eqb (name pi) n then stop i pi else []) in
    tr = map call_stop (stop_calls tr) /\
    Forall (fun j => i <= j) (stop_calls tr) /\
    StronglySorted lt (stop_calls tr) /\
    forall j,
      count_occ Nat.eq_dec (stop_calls tr) j
      = if (j <? i)%nat then 0
        else match nth_error l (j - i) with
             | Some pi => if name_eqb (name pi) n then 1 else 0
             | None => 0
             end.
Proof.
  induction l as [|pi l IH]; intros i; cbv zeta.
  - simpl. repeat split; try constructor.
    intros j. destruct (j <? i)%nat; [reflexivity|]. now destruct (j - i).
  - destruct (IH (S i)) as (Hmap & Hge & Hsorted & Hcount). clear IH.
    assert (Hge' : Forall (fun j => i <= j)
                     (stop_calls (forEach_from (S i) l
                        (fun i pi => if name_eqb (name pi) n then stop i pi else [])))).
    { eapply Forall_impl; [|exact Hge]. simpl. intros; lia. }
    assert (Hrest : forall j, j <> i ->
              (if (j <? S i)%nat then 0
               else match nth_error l (j - S i) with
                    | Some pi => if name_eqb (name pi) n then 1 else 0
                    | None => 0
                    end)
              = (if (j <? i)%nat then 0
                 else match nth_error (pi :: l) (j - i) with
                      | Some pi => if name_eqb (name pi) n then 1 else 0
                      | None => 0
                      end)).
    { intros j Hj. destruct (Nat.ltb_spec j i) as [Hlt|Hle].
      - destruct (Nat.ltb_spec j (S i)); [reflexivity | lia].
      - destruct (Nat.ltb_spec j (S i)); [lia|].
        replace (j - i) with (S (j - S i)) by lia. reflexivity. }
    simpl forEach_from. destruct (name_eqb (name pi) n) eqn:Hn.
    + unfold stop at 1. simpl. repeat split.
      * now f_equal.
      * constructor; [lia | exact Hge'].
      * constructor; [exact Hsorted|].
        eapply Forall_impl; [|exact Hge]. simpl. intros; lia.
      * intros j. destruct (Nat.eq_dec i j) as [<-|Hj].
        -- rewrite Hcount. rewrite Nat.ltb_irrefl, Nat.sub_diag. simpl.
           rewrite Hn. destruct (Nat.ltb_spec i (S i)); [reflexivity | lia].
        -- rewrite Hcount. apply Hrest. auto.
    + simpl. repeat split; auto.
      intros j. rewrite Hcount. destruct (Nat.eq_dec j i) as [->|Hj].
      * rewrite Nat.ltb_irrefl, Nat.sub_diag. simpl. rewrite Hn.
        destruct (Nat.ltb_spec i (S i)); [reflexivity | lia].
      * apply Hrest. exact Hj.
Qed.

(** C9: [stopByName] calls [stop] on the entries whose name is the given
    one: on each of them once, in the order of the registry, and on no
    other entry; it does nothing else. *)
Theorem stopByName_stops_each_match_once :
  forall (n : option string) (st : state),
    let tr := snd (stopByName n st) in
    fst (stopByName n st) = st /\
    tr = map call_stop (stop_calls tr) /\
    StronglySorted lt (stop_calls tr) /\
    forall i,
      count_occ Nat.eq_dec (stop_calls tr) i
      = match nth_error (REG st) i with
        | Some pi => if name_eqb (name pi) n then 1 else 0
        | None => 0
        end.
Proof.
  intros n st. cbv zeta. unfold stopByName, forEach. cbn [fst snd].
  destruct (forEach_stop_by_name n (REG st) 0) as (Hmap & _ & Hsorted & Hcount).
  repeat split; auto.
  intros i. rewrite Hcount. simpl. now rewrite Nat.sub_0_r.
Qed.

(** ** The registry *)

Lemma nth_error_pushed {A : Type} (l : list A) (x : A) :
  nth_error (l ++ [x]) (List.length l) = Some x.
Proof.
  induction l as [|h t IH]; simpl; auto.
Qed.

Lemma set_nth_pushed {A : Type} (l : list A) (x y : A) :
  set_nth (List.length l) y (l ++ [x]) = l ++ [y].
Proof.
  induction l as [|h t IH]; simpl; [reflexivity | now rewrite IH].
Qed.

(** A launch function on the entry that was just pushed. *)
Lemma launchPythonProcess_pushed (rt : runtime) (pi : procinfo) (st : state) :
  launchPythonProcess rt (List.length (REG st)) (set_REG (REG st ++ [pi]) st)
  = launch_outcome rt (python_request pi) pi st.
Proof.
  unfold launchPythonProcess. cbn [REG set_REG]. rewrite nth_error_pushed.
  unfold launch_with, launch_outcome, python_request. cbv zeta.
  destruct (launch_throws rt _).
  - unfold set_REG. cbn. now rewrite set_nth_pushed.
  - unfold captureOutput, set_heap, set_REG. cbn. now rewrite set_nth_pushed.
Qed.

Lemma launchJSProcess_pushed (rt : runtime) (pi : procinfo) (st : state) :
  launchJSProcess rt (List.length (REG st)) (set_REG (REG st ++ [pi]) st)
  = launch_outcome rt (js_request pi) pi st.
Proof.
  unfold launchJSProcess. cbn [REG set_REG]. rewrite nth_error_pushed.
  unfold launch_with, launch_outcome, js_request. cbv zeta.
  destruct (launch_throws rt _).
  - unfold set_REG. cbn. now rewrite set_nth_pushed.
  - unfold captureOutput, set_heap, set_REG. cbn. now rewrite set_nth_pushed.
Qed.

Lemma run_launcher_pushed (rt : runtime) (h : launcher) (pi : procinfo)
    (st : state) :
  run_launcher rt h (List.length (REG st)) (set_REG (REG st ++ [pi]) st)
  = launch_outcome rt
      (match h with LaunchJS => js_request pi | LaunchPython => python_request pi end)
      pi st.
Proof.
  destruct h; simpl; [apply launchJSProcess_pushed | apply launchPythonProcess_pushed].
Qed.

Lemma launches_app (a b : list effect) :
  launches (a ++ b) = launches a ++ launches b.
Proof.
  induction a as [|x a IH]; simpl; [reflexivity|].
  destruct x; simpl; now rewrite ?IH.
Qed.

Lemma launches_invoke (c : callback) (arg : jsval) :
  launches (invoke c arg) = [].
Proof.
  unfold invoke. destruct c; simpl; [reflexivity|].
  destruct (truthy arg); reflexivity.
Qed.

Lemma get_script_1_quiet (rt : runtime) (pi : procinfo) :
  launches (fst (get_script_1 rt pi)) = [] /\
  callback_calls (fst (get_script_1 rt pi)) = [].
Proof.
  unfold get_script_1. destruct (as_truthy (script pi)); [split; reflexivity|].
  destruct (cwd pi); [|split; reflexivity].
  destruct (readFile rt _); split; reflexivity.
Qed.

(** The four ways [on_script] ends: with a message for the callback,
    with an exception before anything is done, with a child launched
    and the callback told so, or with the exception of a launch that
    was refused, the entry being on [REG] already. *)
Lemma on_script_cases (rt : runtime) (c : callback) (pi : procinfo) (v : jsval)
    (st : state) :
  (exists msg, on_script rt c pi v st = Done st (invoke c (VStr msg)))
  \/ (exists e, on_script rt c pi v st = Uncaught e st [])
  \/ (exists ch,
        (ch = js_request (set__script v pi) \/ ch = python_request (set__script v pi)) /\
        launch_throws rt ch = None /\
        on_script rt c pi v st
        = Done {| REG := REG st ++ [launched (argv ch) ch (List.length (heap st))
                                      (set__script v pi)];
                  ONSTOPPING := ONSTOPPING st;
                  heap := heap st ++ [empty_capture] |}
            (launch ch :: invoke c VUndef))
  \/ (exists ch e,
        (ch = js_request (set__script v pi) \/ ch = python_request (set__script v pi)) /\
        launch_throws rt ch = Some e /\
        on_script rt c pi v st
        = Uncaught e (set_REG (REG st ++ [with_args (argv ch) (set__script v pi)]) st)
            [launch ch]).
Proof.
  unfold on_script. destruct (negb (truthy v)); [left; eauto|].
  destruct (getScriptHandler v) as [[h|]|e]; [|left; eauto|right; left; eauto].
  right; right. rewrite run_launcher_pushed. unfold launch_outcome.
  set (ch := match h with
             | LaunchJS => js_request (set__script v pi)
             | LaunchPython => python_request (set__script v pi)
             end).
  assert (Hch : ch = js_request (set__script v pi)
                \/ ch = python_request (set__script v pi))
    by (destruct h; [now left | now right]).
  destruct (launch_throws rt ch) as [e|] eqn:Hthrow.
  - right. exists ch, e. repeat split; auto.
  - left. exists ch. repeat split; auto.
Qed.

Ltac registry_unchanged :=
  unfold accepted; cbn [state_of trace_of];
  rewrite ?app_nil_r, ?launches_app, ?callback_calls_app;
  rewrite ?launches_invoke, ?callback_calls_invoke;
  repeat match goal with H : _ = [] |- _ => rewrite H end;
  repeat split; try discriminate; auto; try (intros _ ? []).

(** What [start] does to the registry: it appends an entry for each
    launch it asks for, at most one, and one when it is accepted. *)
Lemma start_registry (rt : runtime) (pi : option procinfo) (cb : option nat)
    (st : state) :
  exists added,
    REG (state_of (start rt pi cb st)) = REG st ++ added /\
    List.length added = List.length (launches (trace_of (start rt pi cb st))) /\
    List.length added <= 1 /\
    (accepted (start rt pi cb st) = true -> List.length added = 1) /\
    (accepted (start rt pi cb st) = false ->
     forall ch, In ch (launches (trace_of (start rt pi cb st))) ->
                launch_throws rt ch <> None).
Proof.
  unfold start. destruct pi as [pi|].
  2:{ exists []. registry_unchanged. }
  destruct (negb (is_truthy (script pi)) && negb (is_truthy (cwd pi))).
  { exists []. registry_unchanged. }
  destruct (get_script_1_quiet rt (entry_of pi (effective cb))) as [Hl Hc].
  destruct (get_script_1 rt (entry_of pi (effective cb))) as [tr [v|e]];
    cbn [fst] in Hl, Hc.
  2:{ exists []. registry_unchanged. }
  destruct (on_script_cases rt (effective cb) (entry_of pi (effective cb)) v st)
    as [(msg & ->) | [(e & ->) | [(ch & _ & _ & ->) | (ch & e & _ & Hthrow & ->)]]];
    cbn [prepend].
  - exists []. registry_unchanged.
  - exists []. registry_unchanged.
  - eexists [_]. unfold accepted. cbn [state_of trace_of REG].
    rewrite launches_app, callback_calls_app, Hl, Hc.
    cbn [launches callback_calls app].
    rewrite launches_invoke, callback_calls_invoke.
    repeat split; auto; discriminate.
  - eexists [_]. cbn [state_of trace_of REG set_REG accepted].
    rewrite launches_app, Hl. cbn [launches app List.length].
    repeat split; auto; try discriminate.
    intros _ ch' [<- | []]. congruence.
Qed.

Lemma step_registry (rt : runtime) (a : action) (st : state) :
  exists added, REG (state_of (step rt a st)) = REG st ++ added.
Proof.
  destruct a as [pi f | n | n | | hook | i ev | err]; simpl.
  - destruct (start_registry rt pi f st) as (added & H & _). eauto.
  - exists []. now rewrite app_nil_r.
  - exists []. now rewrite app_nil_r.
  - exists []. now rewrite app_nil_r.
  - exists []. now rewrite app_nil_r.
  - exists []. unfold done. simpl. now rewrite REG_deliver, app_nil_r.
  - exists []. rewrite app_nil_r. now destruct (appendFile_callback err).
Qed.

Lemma run_registry (rt : runtime) (acts : list action) :
  forall st, exists added, REG (state_of (run rt acts st)) = REG st ++ added.
Proof.
  induction acts as [|a acts IH]; intros st; simpl.
  - exists []. now rewrite app_nil_r.
  - destruct (step_registry rt a st) as (added1 & H1).
    destruct (step rt a st) as [st1 tr1 | e st1 tr1]; simpl in H1.
    + destruct (IH st1) as (added2 & H2).
      exists (added1 ++ added2). rewrite app_assoc, <- H1.
      destruct (run rt acts st1); exact H2.
    + eauto.
Qed.

(** Every entry that a run puts in the registry is wired. *)

Lemma wired_entry_heap (st st' : state) (pi : procinfo) :
  List.length (heap st) <= List.length (heap st') ->
  wired_entry st pi -> wired_entry st' pi.
Proof.
  intros Hle (Hc & [Hnone | (Hch & a & Ha & Hlt)]); split; auto.
  right. split; [exact Hch|]. exists a. split; [exact Ha | lia].
Qed.

Lemma heap_with_capture (pi : procinfo) (st : state) f :
  List.length (heap (fst (with_capture pi st f))) = List.length (heap st).
Proof.
  unfold with_capture. destruct (flush pi) as [a|]; [|reflexivity].
  destruct (nth_error (heap st) a) as [c|]; [|reflexivity].
  destruct (f c). cbn. apply length_set_nth.
Qed.

Lemma heap_deliver (i : nat) (ev : child_event) (st : state) :
  List.length (heap (fst (deliver i ev st))) = List.length (heap st).
Proof.
  unfold deliver. destruct (nth_error (REG st) i) as [pi|]; [|reflexivity].
  destruct (child pi); [|reflexivity].
  destruct ev; try apply heap_with_capture;
    unfold on_error, on_done_1, run_flush;
    pose proof (heap_with_capture pi st (captureOutput_flush pi)) as H;
    destruct (with_capture pi st (captureOutput_flush pi)); cbn in *;
    try destruct (truthy_code code || truthy_signal signal); exact H.
Qed.

Lemma start_wired (rt : runtime) (pi : option procinfo) (f : option nat)
    (st : state) :
  wired st -> wired (state_of (start rt pi f st)).
Proof.
  intros Hst. unfold start. destruct pi as [pi|]; [|exact Hst].
  destruct (negb (is_truthy (script pi)) && negb (is_truthy (cwd pi)));
    [exact Hst|].
  destruct (get_script_1 rt (entry_of pi (effective f))) as [tr [v|e]];
    [|exact Hst].
  destruct (on_script_cases rt (effective f) (entry_of pi (effective f)) v st)
    as [(msg & ->) | [(e & ->) | [(ch & _ & _ & ->) | (ch & e & _ & _ & ->)]]];
    cbn [prepend state_of]; try exact Hst.
  - unfold wired. cbn [REG]. apply Forall_app. split.
    + eapply Forall_impl; [|exact Hst]. intros x. apply wired_entry_heap.
      cbn [heap]. rewrite length_app. lia.
    + constructor; [|constructor]. split; [eexists; reflexivity|].
      right. split; [eexists; reflexivity|].
      exists (List.length (heap st)). split; [reflexivity|].
      cbn [heap]. rewrite length_app. simpl. lia.
  - unfold wired. cbn [REG set_REG]. apply Forall_app. split.
    + eapply Forall_impl; [|exact Hst]. intros x. apply wired_entry_heap.
      cbn [heap set_REG]. lia.
    + constructor; [|constructor]. split; [eexists; reflexivity|].
      left. split; reflexivity.
Qed.

Lemma step_wired (rt : runtime) (a : action) (st : state) :
  wired st -> wired (state_of (step rt a st)).
Proof.
  intros Hst. destruct a as [pi f | n | n | | hook | i ev | err]; simpl;
    try exact Hst.
  - now apply start_wired.
  - unfold wired, done. cbn [state_of]. rewrite REG_deliver.
    eapply Forall_impl; [|exact Hst]. intros x. apply wired_entry_heap.
    now rewrite heap_deliver.
  - now destruct (appendFile_callback err).
Qed.

Lemma run_wired (rt : runtime) (acts : list action) :
  forall st, wired st -> wired (state_of (run rt acts st)).
Proof.
  induction acts as [|a acts IH]; intros st Hst; simpl; [exact Hst|].
  pose proof (step_wired rt a st Hst) as H1.
  destruct (step rt a st) as [st1 tr1 | e st1 tr1]; simpl in H1; [|exact H1].
  specialize (IH st1 H1). now destruct (run rt acts st1).
Qed.

(** An entry of a run has its callback, and its child unless its launch
    threw. *)
Lemma registered_entries_are_wired (rt : runtime) (acts : list action)
    (i : nat) (pi : procinfo) :
  nth_error (REG (state_of (run rt acts initial))) i = Some pi ->
  (exists c, cb pi = Some c) /\
  ((child pi = None /\ flush pi = None)
   \/ ((exists ch, child pi = Some ch) /\ exists a, flush pi = Some a)).
Proof.
  intros Hi.
  assert (Hw : wired (state_of (run rt acts initial)))
    by (apply run_wired; constructor).
  apply nth_error_In in Hi.
  unfold wired in Hw. rewrite Forall_forall in Hw.
  destruct (Hw pi Hi) as (Hc & [Hnone | (Hch & a & Ha & _)]); split; eauto.
Qed.

Lemma run_through_registry (rt : runtime) (acts : list action) :
  forall st, exists added, REG (fst (run_through rt acts st)) = REG st ++ added.
Proof.
  induction acts as [|a acts IH]; intros st; simpl.
  - exists []. now rewrite app_nil_r.
  - destruct (step_registry rt a st) as (added1 & H1).
    destruct (IH (state_of (step rt a st))) as (added2 & H2).
    destruct (run_through rt acts (state_of (step rt a st))) as [st' tr'].
    cbn [fst] in *. exists (added1 ++ added2). now rewrite app_assoc, <- H1.
Qed.

(** C10: restart, stop, stopall and onstopping leave the registry as it
    is; start appends one entry for each launch it asks for, at most
    one: exactly one when it is accepted, and when it is not, none, or
    the one whose launch threw; so the registry only grows at its end,
    and its length never decreases, along any run, also when the caller
    catches the exceptions and goes on. *)
Theorem registry_never_shrinks :
  (forall n st, REG (fst (restartByName n st)) = REG st)
  /\ (forall n st, REG (fst (stopByName n st)) = REG st)
  /\ (forall st, REG (fst (stopall st)) = REG st)
  /\ (forall hook st, REG (fst (onstopping hook st)) = REG st)
  /\ (forall rt pi cb st,
         exists added,
           REG (state_of (start rt pi cb st)) = REG st ++ added /\
           List.length added
           = List.length (launches (trace_of (start rt pi cb st))) /\
           List.length added <= 1 /\
           (accepted (start rt pi cb st) = true -> List.length added = 1) /\
           (accepted (start rt pi cb st) = false ->
            forall ch, In ch (launches (trace_of (start rt pi cb st))) ->
                       launch_throws rt ch <> None))
  /\ (forall rt acts st,
         exists added,
           REG (state_of (run rt acts st)) = REG st ++ added /\
           List.length (REG st) <= List.length (REG (state_of (run rt acts st))))
  /\ (forall rt acts st,
         exists added,
           REG (fst (run_through rt acts st)) = REG st ++ added /\
           List.length (REG st) <= List.length (REG (fst (run_through rt acts st)))).
Proof.
  repeat split; try reflexivity.
  - intros rt pi f st. apply start_registry.
  - intros rt acts st. destruct (run_registry rt acts st) as (added & H).
    exists added. split; [exact H|]. rewrite H, length_app. lia.
  - intros rt acts st. destruct (run_through_registry rt acts st) as (added & H).
    exists added. split; [exact H|]. rewrite H, length_app. lia.
Qed.

(** ** Starting *)

Lemma lookup_unknown_extension (ext : string) :
  ext <> ".js" -> ext <> ".py" -> lookup ext handlers = None.
Proof.
  intros Hjs Hpy. simpl.
  destruct (String.eqb_spec ext ".js"); [contradiction|].
  destruct (String.eqb_spec ext ".py"); [contradiction|reflexivity].
Qed.

Lemma as_truthy_Some (o : option string) (s : string) :
  as_truthy o = Some s -> o = Some s /\ s <> EmptyString.
Proof.
  destruct o as [x|]; simpl; [|discriminate].
  destruct (String.eqb_spec x ""); [discriminate|].
  intros [= <-]. auto.
Qed.

Lemma truthy_VStr (s : string) : s <> EmptyString -> truthy (VStr s) = true.
Proof.
  intros H. simpl. now destruct (String.eqb_spec s "").
Qed.

Lemma getScriptHandler_known (s ext : string) (h : launcher) :
  extname s = ext ->
  negb (ext =? "") = true ->
  lookup ext handlers = Some h ->
  getScriptHandler (VStr s) = Ok (Some h).
Proof.
  intros <- Hne Hl. unfold getScriptHandler. cbv zeta. now rewrite Hne, Hl.
Qed.

(** A manifest that cannot be read is taken as no manifest. *)
Lemma manifest_read_failure_is_swallowed (rt : runtime) (pi : procinfo)
    (f : option nat) (st : state) (dir : string) (err : jsval) (data : string) :
  is_truthy (script pi) = false ->
  cwd pi = Some dir ->
  dir <> EmptyString ->
  readFile rt (path_join rt dir "package.json") = readFile_calls_back err data ->
  truthy err = true ->
  start rt (Some pi) f st
  = Done st (fs_readFile (path_join rt dir "package.json")
             :: invoke (effective f) (VStr "No script given to run")).
Proof.
  intros Hs Hd Hne Hr He. unfold start. rewrite Hs.
  assert (Hc : is_truthy (cwd pi) = true).
  { unfold is_truthy, as_truthy. rewrite Hd. now destruct (String.eqb_spec dir ""). }
  rewrite Hc. cbn [negb andb].
  unfold get_script_1. cbn [script cwd entry_of].
  unfold is_truthy in Hs. destruct (as_truthy (script pi)); [discriminate|].
  rewrite Hd, Hr. unfold readFile_callback. rewrite He. reflexivity.
Qed.

(** C5: a call of [start] that ends in a configuration error (no
    parameters, neither script nor working directory, no script after
    resolution, or a script whose extension is missing or unknown) calls
    the callback once, with the message of that error, asks for no
    child process and leaves the state, the registry with it, as it
    was. *)
Theorem start_configuration_error :
  forall (rt : runtime) (pi : option procinfo) (f : option nat) (st : state)
         (msg : string),
    configuration_error rt (effective f) pi msg ->
    exists tr,
      start rt pi f st = Done st tr /\
      callback_calls tr = [(effective f, VStr msg)] /\
      launches tr = [].
Proof.
  intros rt pi f st msg H. unfold start.
  destruct H as [ | pi Hs Hc | pi v Hsc Hget Hv | pi s Hsc Hget Hs Hjs Hpy ].
  - eexists. split; [reflexivity|].
    now rewrite callback_calls_invoke, launches_invoke.
  - rewrite Hs, Hc. eexists. split; [reflexivity|].
    now rewrite callback_calls_invoke, launches_invoke.
  - apply orb_true_iff in Hsc.
    assert (Hg : negb (is_truthy (script pi)) && negb (is_truthy (cwd pi)) = false)
      by (destruct Hsc as [-> | ->]; [reflexivity | apply andb_false_r]).
    rewrite Hg.
    destruct (get_script_1_quiet rt (entry_of pi (effective f))) as [Hl Hc].
    destruct (get_script_1 rt (entry_of pi (effective f))) as [tr r].
    cbn [fst snd] in *. subst r.
    unfold on_script. rewrite Hv. cbn [negb prepend].
    eexists. split; [reflexivity|].
    now rewrite callback_calls_app, launches_app, Hl, Hc,
      callback_calls_invoke, launches_invoke.
  - apply orb_true_iff in Hsc.
    assert (Hg : negb (is_truthy (script pi)) && negb (is_truthy (cwd pi)) = false)
      by (destruct Hsc as [-> | ->]; [reflexivity | apply andb_false_r]).
    rewrite Hg.
    destruct (get_script_1_quiet rt (entry_of pi (effective f))) as [Hl Hc].
    destruct (get_script_1 rt (entry_of pi (effective f))) as [tr r].
    cbn [fst snd] in *. subst r.
    unfold on_script. rewrite (truthy_VStr s Hs). cbn [negb].
    unfold getScriptHandler. rewrite (lookup_unknown_extension _ Hjs Hpy).
    destruct (negb (extname s =? "")); cbn [prepend template];
      (eexists; split; [reflexivity|]);
      now rewrite callback_calls_app, launches_app, Hl, Hc,
        callback_calls_invoke, launches_invoke.
Qed.

(** C2, on the code: when the manifest is read but [JSON.parse] throws,
    the exception is thrown by the callback of [fs.readFile], which the
    [try] of [get_script_1] no longer surrounds: [start] ends with that
    exception uncaught and its callback is never called. *)
Theorem manifest_parse_failure_is_not_caught :
  forall (rt : runtime) (pi : procinfo) (f : option nat) (st : state)
         (dir : string) (err : jsval) (data : string) (e : exn),
    is_truthy (script pi) = false ->
    cwd pi = Some dir ->
    dir <> EmptyString ->
    readFile rt (path_join rt dir "package.json") = readFile_calls_back err data ->
    truthy err = false ->
    JSON_parse rt data = Throw e ->
    start rt (Some pi) f st
    = Uncaught e st [fs_readFile (path_join rt dir "package.json")]
    /\ callback_calls (trace_of (start rt (Some pi) f st)) = [].
Proof.
  intros rt pi f st dir err data e Hs Hd Hne Hr He Hp.
  assert (Hstart : start rt (Some pi) f st
                   = Uncaught e st [fs_readFile (path_join rt dir "package.json")]).
  { unfold start. rewrite Hs.
    assert (Hc : is_truthy (cwd pi) = true).
    { unfold is_truthy, as_truthy. rewrite Hd.
      now destruct (String.eqb_spec dir ""). }
    rewrite Hc. cbn [negb andb].
    unfold get_script_1. cbn [script cwd entry_of].
    unfold is_truthy in Hs. destruct (as_truthy (script pi)); [discriminate|].
    rewrite Hd, Hr. unfold readFile_callback. rewrite He, Hp. reflexivity. }
  rewrite Hstart. split; reflexivity.
Qed.

(** C3, on the code: with a log file, [out] appends the line and a
    newline to it; when the append fails, the callback evaluates the
    identifier [m], which nothing declares: it throws a ReferenceError
    before it reports anything, and nobody catches it. *)
Theorem appendFile_failure_throws :
  forall (rt : runtime) (pi : procinfo) (file line : string) (iserr : bool)
         (err : jsval) (st : state),
    as_truthy (log pi) = Some file ->
    truthy err = true ->
    out pi line iserr = fs_appendFile file (line ++ LF)
    /\ appendFile_callback err = Throw (ReferenceError "m")
    /\ step rt (Appended err) st = Uncaught (ReferenceError "m") st [].
Proof.
  intros rt pi file line iserr err st Hlog Herr.
  assert (Hcb : appendFile_callback err = Throw (ReferenceError "m")).
  { unfold appendFile_callback. rewrite Herr. reflexivity. }
  repeat split.
  - unfold out. now rewrite Hlog.
  - exact Hcb.
  - simpl. now rewrite Hcb.
Qed.

(** C4, on the code: the entry that [start] builds copies neither
    [args] nor [env] from the caller's object, so the launch functions
    find them absent: whatever arguments and environment the caller
    gives, a Python script is spawned with the script alone as argument
    vector, a JavaScript one is forked with no argument, and neither
    gets an environment. *)
Theorem start_drops_args_and_env :
  forall (rt : runtime) (pi : procinfo) (f : option nat) (st : state)
         (s : string),
    as_truthy (script pi) = Some s ->
    (extname s = ".py" ->
     launches (trace_of (start rt (Some pi) f st))
     = [{| via := proc_spawn; command := VStr "python"; argv := [VStr s];
           options := {| windowsHide := Some false; silent := None;
                         detached := false; opts_cwd := as_truthy (cwd pi);
                         opts_env := None |} |}])
    /\ (extname s = ".js" ->
        launches (trace_of (start rt (Some pi) f st))
        = [{| via := proc_fork; command := VStr s; argv := [];
              options := {| windowsHide := None; silent := Some true;
                            detached := false; opts_cwd := as_truthy (cwd pi);
                            opts_env := None |} |}]).
Proof.
  intros rt pi f st s Hs.
  destruct (as_truthy_Some _ _ Hs) as [Hscript Hne].
  assert (Hstart : start rt (Some pi) f st
                   = on_script rt (effective f) (entry_of pi (effective f)) (VStr s) st).
  { unfold start, is_truthy. rewrite Hs. cbn [negb andb].
    unfold get_script_1. cbn [script entry_of]. rewrite Hs.
    cbn [prepend app]. now destruct (on_script _ _ _ _ _). }
  rewrite Hstart. unfold on_script. rewrite (truthy_VStr s Hne). cbn [negb].
  split; intros Hext.
  - rewrite (getScriptHandler_known s ".py" LaunchPython Hext eq_refl eq_refl).
    rewrite run_launcher_pushed. unfold launch_outcome.
    destruct (launch_throws rt _); cbn [trace_of]; [reflexivity|].
    rewrite launches_app, launches_invoke. reflexivity.
  - rewrite (getScriptHandler_known s ".js" LaunchJS Hext eq_refl eq_refl).
    rewrite run_launcher_pushed. unfold launch_outcome.
    destruct (launch_throws rt _); cbn [trace_of]; [reflexivity|].
    rewrite launches_app, launches_invoke. reflexivity.
Qed.

(** ** Extensions *)

Lemma substring_from (s : string) :
  forall i k c,
    String.get i s = Some c ->
    substring i (S k) s = String c (substring (S i) k s).
Proof.
  induction s as [|x s IH]; intros i k c H; [destruct i; discriminate H|].
  destruct i as [|i]; simpl in H.
  - injection H as ->. simpl. destruct s, k; reflexivity.
  - simpl. rewrite (IH i k c H). reflexivity.
Qed.

Lemma extname_char_inv (path : string) (i : nat) (c : ascii) (v : extname_vars) :
  String.get i path = Some c ->
  extname_inv path (S i) v ->
  extname_inv path i (extname_char (Z.of_nat i) c v).
Proof.
  intros Hget [Hend Hdot]. unfold extname_char, extname_inv.
  destruct (Z.eqb_spec (end_ v) (-1)) as [He|He]; cbn [end_ startDot preDotState].
  - assert (Hs : startDot v = (-1)%Z) by (destruct Hdot as [?|(? & ? & _)]; lia).
    destruct (is_dot c) eqn:Hc.
    + rewrite Hs. cbn. split; [right; lia|]. right.
      repeat split; try lia. exists c. now rewrite Nat2Z.id.
    + rewrite Hs. cbn. split; [right; lia | now left].
  - assert (He' : (Z.of_nat (S i) < end_ v)%Z) by (destruct Hend; [contradiction | assumption]).
    assert (Hdot' : (startDot v = -1)%Z \/
              ((Z.of_nat i <= startDot v)%Z /\ (startDot v < end_ v)%Z /\
               exists c, String.get (Z.to_nat (startDot v)) path = Some c /\ is_dot c = true)).
    { destruct Hdot as [?|(? & ? & ?)]; [now left | right; repeat split; auto; lia]. }
    destruct (is_dot c) eqn:Hc.
    + destruct (Z.eqb_spec (startDot v) (-1)) as [Hs|Hs]; cbn.
      * split; [right; lia|]. right. repeat split; try lia.
        exists c. now rewrite Nat2Z.id.
      * destruct (negb (preDotState v =? 1)%Z); cbn; (split; [right; lia | exact Hdot']).
    + destruct (negb (startDot v =? -1)%Z); cbn; (split; [right; lia | exact Hdot']).
Qed.

Lemma extname_loop_inv (path : string) :
  forall n v,
    extname_inv path n v ->
    exists m, extname_inv path m (extname_loop path n v).
Proof.
  induction n as [|i IH]; intros v Hv; [exists 0; exact Hv|].
  simpl. destruct (String.get i path) as [c|] eqn:Hget; [|exists (S i); exact Hv].
  destruct (is_slash c).
  - destruct (negb (matchedSlash v)).
    + exists (S i). exact Hv.
    + apply IH. destruct Hv as [Hend Hdot]. split.
      * destruct Hend; [now left | right; lia].
      * destruct Hdot as [?|(? & ? & ?)]; [now left | right; repeat split; auto; lia].
  - apply IH. now apply extname_char_inv.
Qed.

(** An extension is empty or starts with a dot: the lookup in
    [handlers] is never asked for a name that an object inherits. *)
Lemma extname_empty_or_dotted (path : string) :
  extname path = EmptyString \/ exists r, extname path = String "." r.
Proof.
  unfold extname.
  destruct (extname_loop_inv path (String.length path) extname_init)
    as (m & _ & Hdot); [split; now left|].
  set (v := extname_loop path (String.length path) extname_init) in *.
  destruct (Z.eqb_spec (startDot v) (-1)) as [Hs|Hs]; [now left|].
  cbn [orb]. destruct (_ || _ || _); [now left|].
  destruct Hdot as [Hs' | (Hm & Hlt & c & Hget & Hc)]; [contradiction|].
  right.
  replace (Z.to_nat (end_ v - startDot v))
    with (S (Z.to_nat (end_ v - startDot v - 1))) by lia.
  rewrite (substring_from _ _ _ _ Hget).
  unfold is_dot in Hc. apply Nat.eqb_eq in Hc.
  assert (c = "."%char) as ->
    by (rewrite <- (ascii_nat_embedding c), Hc; reflexivity).
  eauto.
Qed.

(** The examples of the runtime's documentation, and the scripts of the
    test file. *)
Example extname_examples :
  extname "index.html" = ".html" /\
  extname "index.coffee.md" = ".md" /\
  extname "index." = "." /\
  extname "index" = "" /\
  extname ".index" = "" /\
  extname ".index.md" = ".md" /\
  extname "./tester" = "" /\
  extname "./tester/with-new/process1/process2/serve.py" = ".py".
Proof. repeat split. Qed.

Example split_newlines_example :
  split_newlines ("abc" ++ LF ++ "def" ++ CR ++ LF) = ["abc"; "def"; ""]
  /\ split_newlines (LF ++ "abc") = [""; "abc"]
  /\ split_newlines "ghi" = ["ghi"].
Proof. repeat split. Qed.

Example trim_example :
  trim ("  ghi " ++ CR ++ LF) = "ghi" /\ trim (" " ++ LF) = "".
Proof. split; reflexivity. Qed.

(** Two entries of one name and one of another: [stopByName] stops the
    two, in the order of the registry. *)
Example stopByName_broadcast :
  let st := state_of (run sample_runtime
                        [Start (Some (params (Some "w") (Some "a.js") None None None None)) None;
                         Start (Some (params (Some "x") (Some "b.py") None None None None)) None;
                         Start (Some (params (Some "w") (Some "c.py") None None None None)) None]
                        initial) in
  snd (stopByName (Some "w") st) = [call_stop 0; call_stop 2].
Proof. reflexivity. Qed.

(** ** The theorems at sample inputs *)

Lemma handleExit_calls_back_on_every_event_witness :
  callback_calls
    (snd (deliver_all 0 [ev_exit (Some 0%Z) None; ev_close (Some 0%Z) None]
            running_ok))
  = [(UserCb 7, VUndef); (UserCb 7, VUndef)]
  /\ List.length
       (callback_calls
          (snd (deliver_all 0 [ev_exit (Some 0%Z) None; ev_close (Some 0%Z) None]
                  running_ok)))
     = 2.
Proof.
  eapply (handleExit_calls_back_on_every_event running_ok 0 _ _ (UserCb 7)
            [ev_exit (Some 0%Z) None; ev_close (Some 0%Z) None]);
    reflexivity.
Defined.

(** C1, as stated, fails: a child that exits cleanly emits exit and then
    close, and the completion callback is called for both. *)
Lemma exit_then_close_calls_back_twice :
  ~ calls_back_exactly_once 0
      [ev_exit (Some 0%Z) None; ev_close (Some 0%Z) None] running_ok.
Proof.
  unfold calls_back_exactly_once. vm_compute. discriminate.
Qed.


Lemma start_configuration_error_witness :
  exists tr,
    start sample_runtime (Some fail2) None initial = Done initial tr /\
    callback_calls tr = [(DefaultCb, VStr "Don't know how to start ./tester")] /\
    launches tr = [].
Proof.
  apply (start_configuration_error sample_runtime (Some fail2) None initial
           "Don't know how to start ./tester").
  apply (unknown_script_type sample_runtime DefaultCb fail2 "./tester");
    first [reflexivity | vm_compute; discriminate].
Defined.

Lemma manifest_parse_failure_is_not_caught_witness :
  start sample_runtime (Some broken_manifest) (Some 3) initial
  = Uncaught (SyntaxError "Unexpected end of JSON input") initial
      [fs_readFile "broken/package.json"]
  /\ callback_calls
       (trace_of (start sample_runtime (Some broken_manifest) (Some 3) initial))
     = [].
Proof.
  apply (manifest_parse_failure_is_not_caught sample_runtime broken_manifest
           (Some 3) initial "broken" VNull "{"
           (SyntaxError "Unexpected end of JSON input"));
    first [reflexivity | discriminate].
Defined.

Lemma appendFile_failure_throws_witness :
  out logged "listening" false = fs_appendFile "process2.log" ("listening" ++ LF)
  /\ appendFile_callback (VError "EACCES: permission denied")
     = Throw (ReferenceError "m")
  /\ step sample_runtime (Appended (VError "EACCES: permission denied")) running_ok
     = Uncaught (ReferenceError "m") running_ok [].
Proof.
  apply (appendFile_failure_throws sample_runtime logged "process2.log"
           "listening" false (VError "EACCES: permission denied") running_ok);
    reflexivity.
Defined.

Lemma start_drops_args_and_env_witness :
  launches (trace_of (start sample_runtime (Some with_args_and_env) (Some 1) initial))
  = [{| via := proc_spawn; command := VStr "python"; argv := [VStr "./a.py"];
        options := {| windowsHide := Some false; silent := None;
                      detached := false; opts_cwd := None; opts_env := None |} |}].
Proof.
  exact (proj1 (start_drops_args_and_env sample_runtime with_args_and_env
                  (Some 1) initial "./a.py" eq_refl) eq_refl).
Defined.

(** * More of the supervisor *)

(** ** Operations on all entries and by name *)

Lemma forEach_restart_by_name (n : option string) (l : list procinfo) :
  forall i,
    let tr := forEach_from i l
                (fun i pi => if name_eqb (name pi) n then restart i pi else []) in
    tr = map call_restart (restart_calls tr) /\
    restart_calls tr
    = stop_calls (forEach_from i l
                    (fun i pi => if name_eqb (name pi) n then stop i pi else [])).
Proof.
  induction l as [|pi l IH]; intros i; cbv zeta; [split; reflexivity|].
  destruct (IH (S i)) as [Hmap Hsame]. simpl forEach_from.
  destruct (name_eqb (name pi) n); simpl.
  - split; [now f_equal | now f_equal].
  - split; assumption.
Qed.

(** X1: [restartByName] calls [restart] on the entries whose name is the
    given one, each of them once, in the order of the registry, and on
    no other; they are the entries on which [stopByName] calls [stop].
    It changes nothing. *)
Theorem restartByName_restarts_each_match_once :
  forall (n : option string) (st : state),
    let tr := snd (restartByName n st) in
    fst (restartByName n st) = st /\
    tr = map call_restart (restart_calls tr) /\
    restart_calls tr = stop_calls (snd (stopByName n st)) /\
    StronglySorted lt (restart_calls tr) /\
    forall i,
      count_occ Nat.eq_dec (restart_calls tr) i
      = match nth_error (REG st) i with
        | Some pi => if name_eqb (name pi) n then 1 else 0
        | None => 0
        end.
Proof.
  intros n st. cbv zeta. unfold restartByName, stopByName, forEach. cbn [fst snd].
  destruct (forEach_restart_by_name n (REG st) 0) as [Hmap Hsame].
  destruct (forEach_stop_by_name n (REG st) 0) as (_ & _ & Hsorted & Hcount).
  cbv zeta in *. rewrite Hsame. repeat split; auto.
  - rewrite <- Hsame. exact Hmap.
  - intros i. rewrite Hcount. simpl. now rewrite Nat.sub_0_r.
Qed.

Lemma forEach_stop_all (l : list procinfo) :
  forall i, forEach_from i l stop = map call_stop (seq i (List.length l)).
Proof.
  induction l as [|pi l IH]; intros i; simpl; [reflexivity|].
  now rewrite IH.
Qed.

(** X2: [stopall] calls [stop] on every entry of the registry, once
    each, from the first to the last, whatever their names, and changes
    nothing; on an empty registry it does nothing. *)
Theorem stopall_stops_every_entry_in_order :
  forall (st : state),
    fst (stopall st) = st /\
    snd (stopall st) = map call_stop (seq 0 (List.length (REG st))) /\
    List.length (snd (stopall st)) = List.length (REG st).
Proof.
  intros st. unfold stopall, forEach. cbn [fst snd].
  rewrite forEach_stop_all. repeat split.
  now rewrite length_map, length_seq.
Qed.

(** ** What an action leaves alone *)

Lemma nth_error_set_nth_other {A : Type} (l : list A) :
  forall i j x, i <> j -> nth_error (set_nth i x l) j = nth_error l j.
Proof.
  induction l as [|h t IH]; intros [|i] [|j] x Hij; simpl; auto;
    congruence.
Qed.

(** A function of a closure changes the variables of that closure and
    nothing else. *)
Lemma with_capture_frame (pi : procinfo) (st : state) f :
  exists h,
    fst (with_capture pi st f) = set_heap h st /\
    List.length h = List.length (heap st) /\
    forall j, flush pi <> Some j -> nth_error h j = nth_error (heap st) j.
Proof.
  unfold with_capture. destruct (flush pi) as [a|].
  2:{ exists (heap st). destruct st; repeat split. }
  destruct (nth_error (heap st) a) as [c|].
  2:{ exists (heap st). destruct st; repeat split. }
  destruct (f c) as [c' tr]. exists (set_nth a c' (heap st)).
  repeat split; [apply length_set_nth|].
  intros j Hj. apply nth_error_set_nth_other. congruence.
Qed.

Lemma deliver_frame (i : nat) (ev : child_event) (st : state) :
  exists h,
    fst (deliver i ev st) = set_heap h st /\
    List.length h = List.length (heap st) /\
    forall j,
      (forall pi, nth_error (REG st) i = Some pi -> flush pi <> Some j) ->
      nth_error h j = nth_error (heap st) j.
Proof.
  assert (Hsame : exists h, st = set_heap h st /\
            List.length h = List.length (heap st) /\
            forall j,
              (forall pi, nth_error (REG st) i = Some pi -> flush pi <> Some j) ->
              nth_error h j = nth_error (heap st) j).
  { exists (heap st). destruct st; repeat split. }
  unfold deliver. destruct (nth_error (REG st) i) as [pi|]; [|exact Hsame].
  destruct (child pi); [|exact Hsame]. clear Hsame.
  assert (Hf : forall f, exists h,
            fst (with_capture pi st f) = set_heap h st /\
            List.length h = List.length (heap st) /\
            forall j,
              (forall pi', Some pi = Some pi' -> flush pi' <> Some j) ->
              nth_error h j = nth_error (heap st) j).
  { intros f. destruct (with_capture_frame pi st f) as (h & H1 & H2 & H3).
    exists h. repeat split; auto. }
  destruct ev; try apply Hf;
    unfold on_error, on_done_1, run_flush;
    specialize (Hf (captureOutput_flush pi));
    destruct (with_capture pi st (captureOutput_flush pi)); cbn [fst] in *;
    try destruct (truthy_code code || truthy_signal signal); exact Hf.
Qed.

(** [start] leaves the state as it is, or adds one entry and its
    closure, or, when the launch throws, the entry alone. *)
Lemma start_states (rt : runtime) (pi : option procinfo) (f : option nat)
    (st : state) :
  state_of (start rt pi f st) = st
  \/ (exists e,
        state_of (start rt pi f st)
        = {| REG := REG st ++ [e]; ONSTOPPING := ONSTOPPING st;
             heap := heap st ++ [empty_capture] |} /\
        flush e = Some (List.length (heap st)))
  \/ (exists e,
        state_of (start rt pi f st) = set_REG (REG st ++ [e]) st /\
        flush e = None).
Proof.
  unfold start. destruct pi as [pi|]; [|now left].
  destruct (negb (is_truthy (script pi)) && negb (is_truthy (cwd pi)));
    [now left|].
  destruct (get_script_1 rt (entry_of pi (effective f))) as [tr [v|e]];
    [|now left].
  destruct (on_script_cases rt (effective f) (entry_of pi (effective f)) v st)
    as [(msg & ->) | [(e & ->) | [(ch & _ & _ & ->) | (ch & e & _ & _ & ->)]]];
    cbn [prepend state_of]; try now left.
  - right; left. eexists. split; reflexivity.
  - right; right. eexists. split; reflexivity.
Qed.

Lemma step_hook (rt : runtime) (a : action) (st : state) :
  ONSTOPPING (state_of (step rt a st)) = last_hook [a] (ONSTOPPING st).
Proof.
  destruct a as [pi f | n | n | | hook | i ev | err]; simpl; try reflexivity.
  - destruct (start_states rt pi f st) as [-> | [(e & -> & _) | (e & -> & _)]];
      reflexivity.
  - unfold done. cbn [state_of].
    destruct (deliver_frame i ev st) as (h & -> & _). reflexivity.
  - now destruct (appendFile_callback err).
Qed.

(** X3: the shutdown hook is the one given to the last call of
    [onstopping]: each call replaces the hook, and no other operation
    and no event of a child changes it. *)
Theorem onstopping_last_hook_wins :
  forall (rt : runtime) (acts : list action) (st st' : state) (tr : list effect),
    run rt acts st = Done st' tr ->
    ONSTOPPING st' = last_hook acts (ONSTOPPING st).
Proof.
  intros rt acts. induction acts as [|a acts IH]; intros st st' tr Hrun.
  - simpl in Hrun. now injection Hrun as <- _.
  - simpl in Hrun. pose proof (step_hook rt a st) as Hstep.
    destruct (step rt a st) as [st1 tr1 | e st1 tr1]; [|discriminate].
    cbn [state_of] in Hstep.
    destruct (run rt acts st1) as [st2 tr2 | e st2 tr2] eqn:Hrest; [|discriminate].
    injection Hrun as <- _. rewrite (IH st1 st2 tr2 Hrest), Hstep.
    destruct a; reflexivity.
Qed.

Lemma onstopping_last_hook_wins_witness :
  ONSTOPPING
    (state_of (run sample_runtime
                 [Onstopping (Some 1); Start (Some fail2) None;
                  Onstopping (Some 2); Stopall] initial))
  = Some 2.
Proof.
  exact (onstopping_last_hook_wins sample_runtime
           [Onstopping (Some 1); Start (Some fail2) None;
            Onstopping (Some 2); Stopall]
           initial _ _ eq_refl).
Defined.

(** ** Starting, in full *)

Lemma start_with_script (rt : runtime) (pi : procinfo) (f : option nat)
    (st : state) (s : string) :
  as_truthy (script pi) = Some s ->
  start rt (Some pi) f st
  = on_script rt (effective f) (entry_of pi (effective f)) (VStr s) st.
Proof.
  intros Hs. unfold start, is_truthy. rewrite Hs. cbn [negb andb].
  unfold get_script_1. cbn [script entry_of]. rewrite Hs.
  cbn [prepend app]. now destruct (on_script _ _ _ _ _).
Qed.

Lemma start_from_manifest (rt : runtime) (pi : procinfo) (f : option nat)
    (st : state) (dir : string) (err : jsval) (data : string) (v : jsval) :
  is_truthy (script pi) = false ->
  cwd pi = Some dir ->
  dir <> EmptyString ->
  readFile rt (path_join rt dir "package.json") = readFile_calls_back err data ->
  truthy err = false ->
  (obj <- JSON_parse rt data ;; get_main obj) = Ok v ->
  start rt (Some pi) f st
  = prepend [fs_readFile (path_join rt dir "package.json")]
      (on_script rt (effective f) (entry_of pi (effective f)) v st).
Proof.
  intros Hs Hd Hne Hr He Hv. unfold start. rewrite Hs.
  assert (Hc : is_truthy (cwd pi) = true).
  { unfold is_truthy, as_truthy. rewrite Hd. now destruct (String.eqb_spec dir ""). }
  rewrite Hc. cbn [negb andb].
  unfold get_script_1. cbn [script cwd entry_of].
  unfold is_truthy in Hs. destruct (as_truthy (script pi)); [discriminate|].
  rewrite Hd, Hr. unfold readFile_callback. rewrite He, Hv. reflexivity.
Qed.

Lemma accepted_launch (st : state) (tr : list effect) (ch : child_process)
    (c : callback) :
  callback_calls tr = [] ->
  accepted (Done st (tr ++ launch ch :: invoke c VUndef)) = true.
Proof.
  intros Htr. unfold accepted. rewrite callback_calls_app, Htr.
  cbn [callback_calls app]. now rewrite callback_calls_invoke.
Qed.

Lemma accepted_message (st : state) (tr : list effect) (c : callback)
    (msg : string) :
  callback_calls tr = [] ->
  accepted (Done st (tr ++ invoke c (VStr msg))) = false.
Proof.
  intros Htr. unfold accepted.
  now rewrite callback_calls_app, Htr, callback_calls_invoke.
Qed.

(** What [on_script] makes of a script with a known extension: the
    entry is pushed, the launch is asked for, and the callback is told
    when the launch did not throw. *)
Lemma on_script_js (rt : runtime) (c : callback) (pi : procinfo) (s : string)
    (st : state) :
  extname s = ".js" ->
  on_script rt c pi (VStr s) st
  = then_callback c
      (launch_outcome rt (js_request (set__script (VStr s) pi))
         (set__script (VStr s) pi) st).
Proof.
  intros Hext. unfold on_script.
  assert (Hs : s <> EmptyString) by (intros ->; discriminate Hext).
  rewrite (truthy_VStr s Hs). cbn [negb].
  rewrite (getScriptHandler_known s ".js" LaunchJS Hext eq_refl eq_refl).
  rewrite run_launcher_pushed. reflexivity.
Qed.

Lemma on_script_py (rt : runtime) (c : callback) (pi : procinfo) (s : string)
    (st : state) :
  extname s = ".py" ->
  on_script rt c pi (VStr s) st
  = then_callback c
      (launch_outcome rt (python_request (set__script (VStr s) pi))
         (set__script (VStr s) pi) st).
Proof.
  intros Hext. unfold on_script.
  assert (Hs : s <> EmptyString) by (intros ->; discriminate Hext).
  rewrite (truthy_VStr s Hs). cbn [negb].
  rewrite (getScriptHandler_known s ".py" LaunchPython Hext eq_refl eq_refl).
  rewrite run_launcher_pushed. reflexivity.
Qed.

Lemma on_script_unknown (rt : runtime) (c : callback) (pi : procinfo)
    (s : string) (st : state) :
  s <> EmptyString ->
  extname s <> ".js" ->
  extname s <> ".py" ->
  on_script rt c pi (VStr s) st
  = Done st (invoke c (VStr ("Don't know how to start " ++ s))).
Proof.
  intros Hs Hjs Hpy. unfold on_script. rewrite (truthy_VStr s Hs). cbn [negb].
  unfold getScriptHandler. rewrite (lookup_unknown_extension _ Hjs Hpy).
  now destruct (negb (extname s =? "")).
Qed.

(** Of the runtime, [on_script] uses nothing but the answer of
    [proc.spawn] and [proc.fork]. *)
Lemma on_script_runtime (rt rt' : runtime) (c : callback) (pi : procinfo)
    (v : jsval) (st : state) :
  (forall ch, launch_throws rt ch = launch_throws rt' ch) ->
  on_script rt c pi v st = on_script rt' c pi v st.
Proof.
  intros Hsame. unfold on_script. destruct (negb (truthy v)); [reflexivity|].
  destruct (getScriptHandler v) as [[h|]|e]; try reflexivity.
  rewrite !run_launcher_pushed. unfold launch_outcome. now rewrite Hsame.
Qed.

Lemma launch_outcome_launches (rt : runtime) (c : callback)
    (ch : child_process) (pi : procinfo) (st : state) :
  launches (trace_of (then_callback c (launch_outcome rt ch pi st))) = [ch] /\
  accepted (then_callback c (launch_outcome rt ch pi st)) = accepts rt ch.
Proof.
  unfold launch_outcome, accepts.
  destruct (launch_throws rt ch); cbn [then_callback trace_of].
  - split; reflexivity.
  - split.
    + cbn [app launches]. now rewrite launches_invoke.
    + exact (accepted_launch _ [] _ _ eq_refl).
Qed.

(** X4: with a script given, [start] does not look at the file system
    (a manifest in the working directory is ignored: two runtimes that
    answer the launches alike give the same result).  It asks for one
    launch when the extension of the script is [.js] or [.py] and for
    none otherwise, and it is accepted exactly when the extension is one
    of the two and the launch does not throw. *)
Theorem start_with_script_accepts_known_extensions :
  forall (rt rt' : runtime) (pi : procinfo) (f : option nat) (st : state)
         (s : string),
    as_truthy (script pi) = Some s ->
    (forall ch, launch_throws rt ch = launch_throws rt' ch) ->
    start rt (Some pi) f st = start rt' (Some pi) f st /\
    List.length (launches (trace_of (start rt (Some pi) f st)))
    = (if (extname s =? ".js") || (extname s =? ".py") then 1 else 0) /\
    accepted (start rt (Some pi) f st)
    = ((extname s =? ".js") || (extname s =? ".py"))
      && forallb (accepts rt) (launches (trace_of (start rt (Some pi) f st))).
Proof.
  intros rt rt' pi f st s Hs Hsame.
  rewrite (start_with_script rt pi f st s Hs), (start_with_script rt' pi f st s Hs).
  split; [now apply on_script_runtime|].
  destruct (as_truthy_Some _ _ Hs) as [_ Hne].
  destruct (String.eqb_spec (extname s) ".js") as [Hjs|Hjs].
  - rewrite (on_script_js rt _ _ s st Hjs).
    destruct (launch_outcome_launches rt (effective f)
                (js_request (set__script (VStr s) (entry_of pi (effective f))))
                (set__script (VStr s) (entry_of pi (effective f))) st) as [-> ->].
    cbn [orb andb forallb List.length]. split; [reflexivity|].
    now rewrite Bool.andb_true_r.
  - destruct (String.eqb_spec (extname s) ".py") as [Hpy|Hpy].
    + rewrite (on_script_py rt _ _ s st Hpy).
      destruct (launch_outcome_launches rt (effective f)
                  (python_request (set__script (VStr s) (entry_of pi (effective f))))
                  (set__script (VStr s) (entry_of pi (effective f))) st) as [-> ->].
      cbn [orb andb forallb List.length]. split; [reflexivity|].
      now rewrite Bool.andb_true_r.
    + rewrite (on_script_unknown rt _ _ _ _ Hne Hjs Hpy). cbn [trace_of orb andb].
      rewrite launches_invoke. split; [reflexivity|].
      exact (accepted_message _ [] _ _ eq_refl).
Qed.

Lemma start_with_script_accepts_known_extensions_witness :
  start sample_runtime (Some with_args_and_env) None initial
  = start empty_runtime (Some with_args_and_env) None initial
  /\ List.length
       (launches (trace_of (start sample_runtime (Some with_args_and_env) None initial)))
     = 1
  /\ accepted (start sample_runtime (Some with_args_and_env) None initial) = true.
Proof.
  exact (start_with_script_accepts_known_extensions sample_runtime empty_runtime
           with_args_and_env None initial "./a.py" eq_refl (fun _ => eq_refl)).
Defined.

Lemma as_truthy_nonempty (s : string) :
  s <> EmptyString -> as_truthy (Some s) = Some s.
Proof.
  intros H. simpl. now destruct (String.eqb_spec s "").
Qed.

(** X5: with no script and a working directory whose manifest names a
    main script with a known extension, [start] reads the manifest and
    asks [proc.fork] for the main script as it is written there, not
    joined to the directory, with the directory as the child's working
    directory.  When [proc.fork] returns, the new entry keeps the
    caller's (absent) [script], holds the resolved one in [_script] and
    the child, and the callback is told.  When [proc.fork] throws, the
    exception escapes from the callback of [fs.readFile]; the entry is
    on the registry all the same, with no child, and the callback is not
    called. *)
Theorem start_launches_main_of_manifest :
  forall (rt : runtime) (pi : procinfo) (f : option nat) (st : state)
         (dir : string) (err : jsval) (data : string)
         (props : list (string * jsval)) (s : string),
    is_truthy (script pi) = false ->
    cwd pi = Some dir ->
    dir <> EmptyString ->
    readFile rt (path_join rt dir "package.json") = readFile_calls_back err data ->
    truthy err = false ->
    JSON_parse rt data = Ok (VObj props) ->
    lookup "main" props = Some (VStr s) ->
    extname s = ".js" ->
    let ch := {| via := proc_fork; command := VStr s; argv := [];
                 options := {| windowsHide := None; silent := Some true;
                               detached := false; opts_cwd := Some dir;
                               opts_env := None |} |} in
    (launch_throws rt ch = None ->
     exists e,
       start rt (Some pi) f st
       = Done {| REG := REG st ++ [e]; ONSTOPPING := ONSTOPPING st;
                 heap := heap st ++ [empty_capture] |}
           (fs_readFile (path_join rt dir "package.json")
            :: launch ch :: invoke (effective f) VUndef) /\
       name e = name pi /\ script e = script pi /\ cwd e = Some dir /\
       _script e = VStr s /\ child e = Some ch) /\
    (forall ex : exn,
        launch_throws rt ch = Some ex ->
        exists e,
          start rt (Some pi) f st
          = Uncaught ex (set_REG (REG st ++ [e]) st)
              [fs_readFile (path_join rt dir "package.json"); launch ch] /\
          name e = name pi /\ script e = script pi /\ cwd e = Some dir /\
          _script e = VStr s /\ child e = None /\ flush e = None).
Proof.
  intros rt pi f st dir err data props s Hs Hd Hne Hr He Hp Hm Hext. cbv zeta.
  rewrite (start_from_manifest rt pi f st dir err data (VStr s) Hs Hd Hne Hr He)
    by (rewrite Hp; simpl; now rewrite Hm).
  rewrite (on_script_js rt (effective f) (entry_of pi (effective f)) s st Hext).
  unfold launch_outcome, js_request.
  cbn [args env cwd _script set__script entry_of argv].
  rewrite Hd, (as_truthy_nonempty dir Hne).
  split.
  - intros ->. cbn [then_callback prepend app].
    eexists. split; [reflexivity|]. cbn. repeat split. exact Hd.
  - intros ex ->. cbn [then_callback prepend app].
    eexists. split; [reflexivity|]. cbn. repeat split. exact Hd.
Qed.

Lemma start_launches_main_of_manifest_witness :
  exists e,
    start sample_runtime (Some from_manifest) None initial
    = Done {| REG := [e]; ONSTOPPING := None; heap := [empty_capture] |}
        (fs_readFile "app/package.json"
         :: launch {| via := proc_fork; command := VStr "index.js"; argv := [];
                      options := {| windowsHide := None; silent := Some true;
                                    detached := false; opts_cwd := Some "app";
                                    opts_env := None |} |}
         :: invoke DefaultCb VUndef) /\
    name e = Some "nodejs-process" /\ script e = None /\ cwd e = Some "app" /\
    _script e = VStr "index.js" /\
    child e = Some {| via := proc_fork; command := VStr "index.js"; argv := [];
                      options := {| windowsHide := None; silent := Some true;
                                    detached := false; opts_cwd := Some "app";
                                    opts_env := None |} |}.
Proof.
  refine (proj1 (start_launches_main_of_manifest sample_runtime from_manifest None
                   initial "app" VNull manifest_text [("main", VStr "index.js")]
                   "index.js" _ _ _ _ _ _ _ _) eq_refl);
    first [reflexivity | discriminate].
Defined.

(** X6: when the manifest gives a main entry that is truthy and not a
    string (a number, an object, [true]), [path.extname] refuses its
    argument inside the callback of [fs.readFile]: [start] ends with the
    uncaught exception of an argument of the wrong type, calls no
    callback, asks for no launch and leaves the registry as it was. *)
Theorem start_throws_on_main_that_is_no_string :
  forall (rt : runtime) (pi : procinfo) (f : option nat) (st : state)
         (dir : string) (err : jsval) (data : string) (obj v : jsval),
    is_truthy (script pi) = false ->
    cwd pi = Some dir ->
    dir <> EmptyString ->
    readFile rt (path_join rt dir "package.json") = readFile_calls_back err data ->
    truthy err = false ->
    JSON_parse rt data = Ok obj ->
    get_main obj = Ok v ->
    truthy v = true ->
    (forall s, v <> VStr s) ->
    start rt (Some pi) f st
    = Uncaught (InvalidArgType "path") st
        [fs_readFile (path_join rt dir "package.json")].
Proof.
  intros rt pi f st dir err data obj v Hs Hd Hne Hr He Hp Hm Hv Hstr.
  rewrite (start_from_manifest rt pi f st dir err data v Hs Hd Hne Hr He)
    by (rewrite Hp; exact Hm).
  unfold on_script. rewrite Hv. cbn [negb].
  destruct v; try reflexivity. now elim (Hstr s).
Qed.

Lemma start_throws_on_main_that_is_no_string_witness :
  start numeric_main_runtime (Some from_manifest) (Some 5) running_ok
  = Uncaught (InvalidArgType "path") running_ok
      [fs_readFile "app/package.json"].
Proof.
  apply (start_throws_on_main_that_is_no_string numeric_main_runtime from_manifest
           (Some 5) running_ok "app" VNull numeric_manifest_text
           (VObj [("main", VNum 42)]) (VNum 42));
    first [reflexivity | discriminate].
Defined.

(** What [launchJSProcess] and [launchPythonProcess] ask for, for an
    entry that has no arguments of its own. *)
Lemma request_facts (pi : procinfo) (ch : child_process) :
  ch = js_request pi \/ ch = python_request pi ->
  args pi = None ->
  detached (options ch) = false /\
  opts_cwd (options ch) = as_truthy (cwd pi) /\
  opts_env (options ch) = env pi /\
  ((via ch = proc_fork /\ command ch = _script pi /\ argv ch = [] /\
    silent (options ch) = Some true)
   \/ (via ch = proc_spawn /\ command ch = VStr "python" /\
       argv ch = [_script pi] /\ windowsHide (options ch) = Some false)).
Proof.
  intros [-> | ->] Hargs; unfold js_request, python_request; rewrite Hargs; cbn;
    repeat split; [left | right]; repeat split.
Qed.

Lemma get_script_1_reads_only (rt : runtime) (pi : procinfo) :
  filter is_output (fst (get_script_1 rt pi)) = [].
Proof.
  unfold get_script_1. destruct (as_truthy (script pi)); [reflexivity|].
  destruct (cwd pi); [|reflexivity].
  now destruct (readFile rt _).
Qed.

(** [start] with parameters.  It asks for no launch, and then it is not
    accepted and the state is as it was; or it asks for one launch that
    returns, and then it is accepted and the entry with the child is
    appended; or it asks for one launch that throws, and then it is not
    accepted and the entry without a child is appended. *)
Lemma start_outcomes (rt : runtime) (pi : procinfo) (f : option nat) (st : state) :
  (accepted (start rt (Some pi) f st) = false /\
   state_of (start rt (Some pi) f st) = st /\
   launches (trace_of (start rt (Some pi) f st)) = [])
  \/ (exists v ch tr,
        (ch = js_request (set__script v (entry_of pi (effective f)))
         \/ ch = python_request (set__script v (entry_of pi (effective f)))) /\
        launch_throws rt ch = None /\
        accepted (start rt (Some pi) f st) = true /\
        start rt (Some pi) f st
        = Done {| REG := REG st ++ [launched (argv ch) ch (List.length (heap st))
                                      (set__script v (entry_of pi (effective f)))];
                  ONSTOPPING := ONSTOPPING st;
                  heap := heap st ++ [empty_capture] |}
            (tr ++ launch ch :: invoke (effective f) VUndef) /\
        snd (get_script_1 rt (entry_of pi (effective f))) = Ok v /\
        launches tr = [] /\ callback_calls tr = [] /\ filter is_output tr = [])
  \/ (exists v ch tr ex,
        (ch = js_request (set__script v (entry_of pi (effective f)))
         \/ ch = python_request (set__script v (entry_of pi (effective f)))) /\
        launch_throws rt ch = Some ex /\
        accepted (start rt (Some pi) f st) = false /\
        start rt (Some pi) f st
        = Uncaught ex
            (set_REG (REG st ++ [with_args (argv ch)
                                   (set__script v (entry_of pi (effective f)))]) st)
            (tr ++ [launch ch]) /\
        snd (get_script_1 rt (entry_of pi (effective f))) = Ok v /\
        launches tr = [] /\ callback_calls tr = [] /\ filter is_output tr = []).
Proof.
  unfold start.
  destruct (negb (is_truthy (script pi)) && negb (is_truthy (cwd pi))).
  { left. unfold accepted. cbn [state_of trace_of].
    now rewrite callback_calls_invoke, launches_invoke. }
  destruct (get_script_1_quiet rt (entry_of pi (effective f))) as [Hl Hc].
  pose proof (get_script_1_reads_only rt (entry_of pi (effective f))) as Ho.
  destruct (get_script_1 rt (entry_of pi (effective f))) as [tr [v|e]];
    cbn [fst snd] in *.
  2:{ left. repeat split. exact Hl. }
  destruct (on_script_cases rt (effective f) (entry_of pi (effective f)) v st)
    as [(msg & ->) | [(e & ->) | [(ch & Hch & Hthrow & ->)
                                 | (ch & ex & Hch & Hthrow & ->)]]];
    cbn [prepend].
  - left. rewrite (accepted_message _ _ _ _ Hc). cbn [state_of trace_of].
    now rewrite launches_app, Hl, launches_invoke.
  - left. cbn [accepted state_of trace_of]. now rewrite app_nil_r.
  - right; left. exists v, ch, tr. rewrite (accepted_launch _ _ _ _ Hc).
    repeat split; auto.
  - right; right. exists v, ch, tr, ex. repeat split; auto.
Qed.

Lemma launches_launch (tr : list effect) (ch : child_process) (c : callback)
    (arg : jsval) :
  launches tr = [] ->
  launches (tr ++ launch ch :: invoke c arg) = [ch].
Proof.
  intros H. rewrite launches_app, H. cbn [launches app].
  now rewrite launches_invoke.
Qed.

Lemma launches_refused (tr : list effect) (ch : child_process) :
  launches tr = [] ->
  launches (tr ++ [launch ch]) = [ch].
Proof.
  intros H. now rewrite launches_app, H.
Qed.

Lemma name_eqb_refl (n : option string) : name_eqb n n = true.
Proof.
  destruct n; simpl; [apply String.eqb_refl | reflexivity].
Qed.

(** X7: the entry of an accepted [start] has the caller's [name],
    [script], [cwd], [log] and [restartAt] and the callback in use, and
    none of the caller's [args] and [env]: its arguments are those the
    launch function made, and it has no environment. *)
Theorem start_entry_copies_the_parameters :
  forall (rt : runtime) (pi : procinfo) (f : option nat) (st : state),
    accepted (start rt (Some pi) f st) = true ->
    exists e ch,
      REG (state_of (start rt (Some pi) f st)) = REG st ++ [e] /\
      name e = name pi /\ script e = script pi /\ cwd e = cwd pi /\
      log e = log pi /\ restartAt e = restartAt pi /\
      cb e = Some (effective f) /\
      env e = None /\
      child e = Some ch /\ args e = Some (argv ch) /\
      launches (trace_of (start rt (Some pi) f st)) = [ch].
Proof.
  intros rt pi f st Hacc.
  destruct (start_outcomes rt pi f st)
    as [(Hno & _) | [(v & ch & tr & _ & _ & _ & Hstart & _ & Hl & _)
                    | (v & ch & tr & ex & _ & _ & Hno & _)]];
    [congruence| |congruence].
  rewrite Hstart. cbn [state_of trace_of REG]. eexists. exists ch.
  split; [reflexivity|]. rewrite (launches_launch _ _ _ _ Hl).
  cbn. repeat split.
Qed.

Lemma start_entry_copies_the_parameters_witness :
  exists e ch,
    REG (state_of (start sample_runtime (Some with_args_and_env) (Some 1) running_ok))
    = REG running_ok ++ [e] /\
    name e = None /\ script e = Some "./a.py" /\ cwd e = None /\
    log e = None /\ restartAt e = VUndef /\
    cb e = Some (UserCb 1) /\
    env e = None /\
    child e = Some ch /\ args e = Some (argv ch) /\
    launches (trace_of (start sample_runtime (Some with_args_and_env) (Some 1)
                          running_ok)) = [ch].
Proof.
  exact (start_entry_copies_the_parameters sample_runtime with_args_and_env
           (Some 1) running_ok eq_refl).
Defined.

(** X8: an entry can be addressed by the name it was started with, a
    missing name included: after an accepted [start], [stopByName] with
    the name of the parameters calls [stop] on the new entry, once. *)
Theorem started_entry_is_stopped_by_its_name :
  forall (rt : runtime) (pi : procinfo) (f : option nat) (st : state),
    accepted (start rt (Some pi) f st) = true ->
    count_occ Nat.eq_dec
      (stop_calls (snd (stopByName (name pi) (state_of (start rt (Some pi) f st)))))
      (List.length (REG st))
    = 1.
Proof.
  intros rt pi f st Hacc.
  destruct (start_outcomes rt pi f st)
    as [(Hno & _) | [(v & ch & tr & _ & _ & _ & Hstart & _)
                    | (v & ch & tr & ex & _ & _ & Hno & _)]];
    [congruence| |congruence].
  rewrite Hstart. cbn [state_of]. unfold stopByName, forEach. cbn [snd REG].
  destruct (forEach_stop_by_name (name pi)
              (REG st ++ [launched (argv ch) ch (List.length (heap st))
                            (set__script v (entry_of pi (effective f)))]) 0)
    as (_ & _ & _ & Hcount).
  cbv zeta in Hcount. rewrite Hcount. cbn [Nat.ltb Nat.leb].
  rewrite Nat.sub_0_r, nth_error_pushed. cbn [name launched set__script entry_of].
  now rewrite name_eqb_refl.
Qed.

Lemma started_entry_is_stopped_by_its_name_witness :
  count_occ Nat.eq_dec
    (stop_calls (snd (stopByName None
                        (state_of (start sample_runtime (Some with_args_and_env)
                                     (Some 1) running_ok)))))
    1
  = 1.
Proof.
  exact (started_entry_is_stopped_by_its_name sample_runtime with_args_and_env
           (Some 1) running_ok eq_refl).
Defined.

(** X9: every child that [start] launches is attached to the supervisor
    ([detached: false]), runs in the caller's working directory when one
    is given, and is either forked with its streams captured
    ([silent: true]) and no argument, or spawned as [python] with the
    script as its only argument. *)
Theorem start_launches_attached_children :
  forall (rt : runtime) (pi : procinfo) (f : option nat) (st : state)
         (ch : child_process),
    In ch (launches (trace_of (start rt (Some pi) f st))) ->
    detached (options ch) = false /\
    opts_cwd (options ch) = as_truthy (cwd pi) /\
    ((via ch = proc_fork /\ argv ch = [] /\ silent (options ch) = Some true)
     \/ (via ch = proc_spawn /\ command ch = VStr "python" /\
         List.length (argv ch) = 1 /\ windowsHide (options ch) = Some false)).
Proof.
  intros rt pi f st ch Hin.
  assert (Hreq : exists v,
             ch = js_request (set__script v (entry_of pi (effective f)))
             \/ ch = python_request (set__script v (entry_of pi (effective f)))).
  { destruct (start_outcomes rt pi f st)
      as [(_ & _ & Hno) | [(v & ch' & tr & Hch & _ & _ & Hstart & _ & Hl & _)
                          | (v & ch' & tr & ex & Hch & _ & _ & Hstart & _ & Hl & _)]].
    - rewrite Hno in Hin. contradiction.
    - rewrite Hstart in Hin. cbn [trace_of] in Hin.
      rewrite (launches_launch _ _ _ _ Hl) in Hin.
      destruct Hin as [<- | []]. now exists v.
    - rewrite Hstart in Hin. cbn [trace_of] in Hin.
      rewrite (launches_refused _ _ Hl) in Hin.
      destruct Hin as [<- | []]. now exists v. }
  destruct Hreq as [v Hch].
  destruct (request_facts _ ch Hch eq_refl) as (Hdet & Hcwd & _ & Hvia).
  repeat split; auto.
  destruct Hvia as [(H1 & _ & H3 & H4) | (H1 & H2 & H3 & H4)];
    [left | right]; repeat split; auto. now rewrite H3.
Qed.

Lemma start_launches_attached_children_witness :
  detached (options python_child) = false /\
  opts_cwd (options python_child) = None /\
  ((via python_child = proc_fork /\ argv python_child = [] /\
    silent (options python_child) = Some true)
   \/ (via python_child = proc_spawn /\ command python_child = VStr "python" /\
       List.length (argv python_child) = 1 /\
       windowsHide (options python_child) = Some false)).
Proof.
  exact (start_launches_attached_children sample_runtime with_args_and_env
           (Some 1) initial python_child (or_introl eq_refl)).
Defined.

(** ** What enters the registry, and when *)






(** ** Where the output goes *)

Lemma is_output_out (pi : procinfo) (line : string) (iserr : bool) :
  is_output (out pi line iserr) = true.
Proof.
  unfold out. destruct (as_truthy (log pi)); [reflexivity|].
  now destruct iserr.
Qed.

Lemma outputs_map_out (pi : procinfo) (iserr : bool) (ls : list string) :
  forallb is_output (map (fun l => out pi l iserr) ls) = true.
Proof.
  induction ls as [|l ls IH]; simpl; [reflexivity|].
  now rewrite is_output_out.
Qed.

Lemma outputs_show_lines_1 (pi : procinfo) (f : string) (iserr : bool) :
  forallb is_output (fst (show_lines_1 pi f iserr)) = true.
Proof.
  unfold show_lines_1. destruct (f =? ""); [reflexivity|]. apply outputs_map_out.
Qed.

Lemma outputs_flush (pi : procinfo) (c : capture) :
  forallb is_output (snd (captureOutput_flush pi c)) = true.
Proof.
  unfold captureOutput_flush. cbn [snd]. rewrite forallb_app.
  destruct (negb (op c =? "") && negb (trim (op c) =? ""));
    destruct (negb (er c =? "") && negb (trim (er c) =? ""));
    cbn; rewrite ?is_output_out; reflexivity.
Qed.

Lemma outputs_on_stdout_data (pi : procinfo) (c : capture) (data : string) :
  forallb is_output (snd (on_stdout_data pi c data)) = true.
Proof.
  unfold on_stdout_data.
  pose proof (outputs_show_lines_1 pi (op c ++ data) false) as H.
  now destruct (show_lines_1 pi (op c ++ data) false).
Qed.

Lemma outputs_on_stderr_data (pi : procinfo) (c : capture) (data : string) :
  forallb is_output (snd (on_stderr_data pi c data)) = true.
Proof.
  unfold on_stderr_data.
  pose proof (outputs_show_lines_1 pi (er c ++ data) true) as H.
  now destruct (show_lines_1 pi (er c ++ data) true).
Qed.

(** What holds of every trace of a function of a closure holds of what
    [with_capture] makes of it. *)
Lemma with_capture_trace (P : list effect -> Prop) (pi : procinfo) (st : state) f :
  P [] ->
  (forall c, P (snd (f c))) ->
  P (snd (with_capture pi st f)).
Proof.
  intros Hnil Hf. unfold with_capture. destruct (flush pi) as [a|]; [|exact Hnil].
  destruct (nth_error (heap st) a) as [c|]; [|exact Hnil].
  specialize (Hf c). now destruct (f c).
Qed.

Lemma launches_outputs (tr : list effect) :
  forallb is_output tr = true -> launches tr = [].
Proof.
  induction tr as [|e tr IH]; simpl; [reflexivity|].
  intros H. apply andb_true_iff in H as [He Htr]. destruct e; try discriminate; auto.
Qed.

(** The trace of an event of a child: output first, then at most one
    call of the callback. *)
Lemma deliver_trace (i : nat) (ev : child_event) (st : state) :
  exists outs calls,
    snd (deliver i ev st) = outs ++ calls /\
    forallb is_output outs = true /\
    (calls = [] \/ exists c, calls = invoke c (notification ev)).
Proof.
  unfold deliver. destruct (nth_error (REG st) i) as [pi|].
  2:{ exists [], []. repeat split. now left. }
  destruct (child pi).
  2:{ exists [], []. repeat split. now left. }
  assert (Hflush : forallb is_output (snd (run_flush pi st)) = true).
  { unfold run_flush. apply with_capture_trace; [reflexivity|]. apply outputs_flush. }
  destruct ev as [data | data | err | code signal | code signal].
  - eexists. exists []. rewrite app_nil_r. split; [reflexivity|]. split; [|now left].
    apply with_capture_trace; [reflexivity|].
    intros cap. apply outputs_on_stdout_data.
  - eexists. exists []. rewrite app_nil_r. split; [reflexivity|]. split; [|now left].
    apply with_capture_trace; [reflexivity|].
    intros cap. apply outputs_on_stderr_data.
  - unfold on_error. destruct (run_flush pi st) as [st' tr]. cbn [snd] in *.
    exists tr, (invoke_cb pi err). repeat split; auto.
    unfold invoke_cb. destruct (cb pi); [right; eauto | now left].
  - unfold on_done_1, notification. destruct (run_flush pi st) as [st' tr].
    cbn [snd] in *.
    destruct (truthy_code code || truthy_signal signal); cbn [snd];
      eexists tr, _; (split; [reflexivity|]); (split; [exact Hflush|]);
      unfold invoke_cb; (destruct (cb pi); [right; eauto | now left]).
  - unfold on_done_1, notification. destruct (run_flush pi st) as [st' tr].
    cbn [snd] in *.
    destruct (truthy_code code || truthy_signal signal); cbn [snd];
      eexists tr, _; (split; [reflexivity|]); (split; [exact Hflush|]);
      unfold invoke_cb; (destruct (cb pi); [right; eauto | now left]).
Qed.

Lemma launches_deliver (i : nat) (ev : child_event) (st : state) :
  launches (snd (deliver i ev st)) = [].
Proof.
  destruct (deliver_trace i ev st) as (outs & calls & -> & Houts & Hcalls).
  rewrite launches_app, (launches_outputs _ Houts).
  destruct Hcalls as [-> | (c & ->)]; [reflexivity | apply launches_invoke].
Qed.

Lemma launches_forEach (l : list procinfo) (body : nat -> procinfo -> list effect) :
  (forall i pi, launches (body i pi) = []) ->
  forall i, launches (forEach_from i l body) = [].
Proof.
  intros Hbody. induction l as [|pi l IH]; intros i; simpl; [reflexivity|].
  now rewrite launches_app, Hbody, IH.
Qed.

Lemma step_launches (rt : runtime) (a : action) (st : state) :
  List.length (REG (state_of (step rt a st)))
  = List.length (REG st) + List.length (launches (trace_of (step rt a st))).
Proof.
  destruct a as [pi f | n | n | | hook | i ev | err]; simpl.
  - destruct (start_registry rt pi f st) as (added & -> & <- & _).
    apply length_app.
  - unfold forEach. rewrite launches_forEach; [simpl; lia|].
    intros i pi. now destruct (name_eqb (name pi) n).
  - unfold forEach. rewrite launches_forEach; [simpl; lia|].
    intros i pi. now destruct (name_eqb (name pi) n).
  - unfold forEach. rewrite launches_forEach; [simpl; lia | reflexivity].
  - lia.
  - unfold done. cbn [state_of trace_of].
    rewrite REG_deliver, launches_deliver. simpl. lia.
  - unfold appendFile_callback. destruct (truthy err); simpl; lia.
Qed.

Lemma filter_pushed {A : Type} (p : A -> bool) (l : list A) (x : A) :
  List.length (filter p (l ++ [x]))
  = List.length (filter p l) + (if p x then 1 else 0).
Proof.
  rewrite filter_app, length_app. simpl. now destruct (p x).
Qed.

(** The entries that hold a child are those whose launch returned. *)
Lemma step_children (rt : runtime) (a : action) (st : state) :
  List.length (filter has_child (REG (state_of (step rt a st))))
  = List.length (filter has_child (REG st))
    + List.length (filter (accepts rt) (launches (trace_of (step rt a st)))).
Proof.
  destruct a as [pi f | n | n | | hook | i ev | err]; simpl.
  - destruct pi as [pi|]; [|cbn [start state_of trace_of]; rewrite launches_invoke;
                             simpl; lia].
    destruct (start_outcomes rt pi f st)
      as [(_ & -> & ->) | [(v & ch & tr & _ & Hthrow & _ & -> & _ & Hl & _)
                          | (v & ch & tr & ex & _ & Hthrow & _ & -> & _ & Hl & _)]];
      cbn [state_of trace_of REG set_REG filter List.length]; [lia| |].
    + rewrite (launches_launch _ _ _ _ Hl), filter_pushed.
      cbn [filter has_child launched child]. unfold accepts. now rewrite Hthrow.
    + rewrite (launches_refused _ _ Hl), filter_pushed.
      cbn [filter has_child with_args set__script entry_of child].
      unfold accepts. now rewrite Hthrow.
  - unfold forEach. rewrite launches_forEach; [simpl; lia|].
    intros i pi. now destruct (name_eqb (name pi) n).
  - unfold forEach. rewrite launches_forEach; [simpl; lia|].
    intros i pi. now destruct (name_eqb (name pi) n).
  - unfold forEach. rewrite launches_forEach; [simpl; lia | reflexivity].
  - lia.
  - unfold done. cbn [state_of trace_of].
    rewrite REG_deliver, launches_deliver. simpl. lia.
  - unfold appendFile_callback. destruct (truthy err); simpl; lia.
Qed.

(** X10: the registry holds one entry for each call of [proc.spawn] or
    [proc.fork], whether or not the call gave a child: along any run,
    from any state, it grows by exactly the number of launches asked
    for in the trace, and the entries that hold a child grow by the
    number of launches that did not throw; stopping, restarting and the
    events of the children ask for no launch and add nothing. *)
Theorem registry_counts_the_launches :
  forall (rt : runtime) (acts : list action) (st : state),
    List.length (REG (state_of (run rt acts st)))
    = List.length (REG st) + List.length (launches (trace_of (run rt acts st)))
    /\
    List.length (filter has_child (REG (state_of (run rt acts st))))
    = List.length (filter has_child (REG st))
      + List.length (filter (accepts rt) (launches (trace_of (run rt acts st)))).
Proof.
  intros rt acts. induction acts as [|a acts IH]; intros st; simpl; [lia|].
  pose proof (step_launches rt a st) as Hstep.
  pose proof (step_children rt a st) as Hkids.
  destruct (step rt a st) as [st1 tr1 | e st1 tr1]; cbn [state_of trace_of] in *;
    [|split; [exact Hstep | exact Hkids]].
  specialize (IH st1).
  destruct (run rt acts st1) as [st2 tr2 | e st2 tr2]; cbn [state_of trace_of] in *;
    rewrite launches_app, filter_app, !length_app; lia.
Qed.

(** ** The lines of a chunk *)

Lemma splits_no_newline (f : string) (lines : list string) :
  splits_on_newline_runs f lines ->
  Forall (fun l => no_newline l = true) lines.
Proof.
  induction 1; constructor; auto.
Qed.

Lemma newline_run_starts (sep rest : string) :
  newline_run sep = true -> starts_with_newline (sep ++ rest) = true.
Proof.
  unfold newline_run. destruct sep as [|c sep]; simpl; [discriminate|].
  intros H. now apply andb_true_iff in H as [H _].
Qed.

(** Between two runs of newlines there is text: only the first and the
    last segment of a split can be empty, and the first only when the
    text starts with a newline. *)
Lemma splits_middle (f : string) (lines : list string) :
  splits_on_newline_runs f lines ->
  (starts_with_newline f = false ->
   List.length lines = 1 \/ hd EmptyString lines <> EmptyString) /\
  Forall (fun l => l <> EmptyString) (removelast (tl lines)).
Proof.
  induction 1 as [line Hline | line sep rest lines Hline Hsep Hrest Hsplit [IH1 IH2]].
  - split; [now left | constructor].
  - split.
    + intros Hstart. right. simpl. intros ->. simpl in Hstart.
      rewrite (newline_run_starts sep rest Hsep) in Hstart. discriminate.
    + simpl tl. destruct lines as [|x [|y t]]; try constructor.
      * destruct (IH1 Hrest) as [Hlen | Hhd]; [discriminate Hlen | exact Hhd].
      * exact IH2.
Qed.

Lemma tl_removelast {A : Type} (l : list A) :
  tl (removelast l) = removelast (tl l).
Proof.
  destruct l as [|x [|y t]]; reflexivity.
Qed.

Lemma Forall_removelast {A : Type} (P : A -> Prop) (l : list A) :
  Forall P l -> Forall P (removelast l).
Proof.
  induction l as [|x l IH]; intros H; [constructor|].
  inversion H; subst. simpl. destruct l; [constructor|].
  constructor; auto.
Qed.

Lemma Forall_last {A : Type} (P : A -> Prop) (l : list A) (d : A) :
  P d -> Forall P l -> P (last l d).
Proof.
  intros Hd. induction l as [|x l IH]; intros H; [exact Hd|].
  inversion H; subst. simpl. destruct l; auto.
Qed.

(** What [show_lines_1] emits and keeps. *)
Lemma show_lines_1_lines (pi : procinfo) (f : string) (iserr : bool) :
  exists ls,
    fst (show_lines_1 pi f iserr) = map (fun l => out pi l iserr) ls /\
    Forall (fun l => no_newline l = true) ls /\
    Forall (fun l => l <> EmptyString) (tl ls) /\
    no_newline (snd (show_lines_1 pi f iserr)) = true.
Proof.
  destruct (show_lines_1_spec pi f iserr) as (lines & Hsplit & ->).
  pose proof (splits_no_newline f lines Hsplit) as Hnl.
  destruct (splits_middle f lines Hsplit) as [_ Hmid].
  exists (removelast lines). cbn [fst snd]. repeat split.
  - now apply Forall_removelast.
  - rewrite tl_removelast. exact Hmid.
  - now apply Forall_last.
Qed.

(** X11: whatever the pending text and the chunk, each line that a
    chunk of data emits is free of newline and carriage-return
    characters, and so is the fragment left pending; the accumulator of
    the other stream is left as it was. *)
Theorem data_emits_lines_without_newlines :
  forall (pi : procinfo) (c : capture) (data : string),
    (exists ls,
        snd (on_stdout_data pi c data) = map (fun l => out pi l false) ls /\
        Forall (fun l => no_newline l = true) ls)
    /\ no_newline (op (fst (on_stdout_data pi c data))) = true
    /\ er (fst (on_stdout_data pi c data)) = er c
    /\ (exists ls,
           snd (on_stderr_data pi c data) = map (fun l => out pi l true) ls /\
           Forall (fun l => no_newline l = true) ls)
    /\ no_newline (er (fst (on_stderr_data pi c data))) = true
    /\ op (fst (on_stderr_data pi c data)) = op c.
Proof.
  intros pi c data. unfold on_stdout_data, on_stderr_data.
  destruct (show_lines_1_lines pi (op c ++ data) false) as (ls1 & H1 & Hn1 & _ & Hp1).
  destruct (show_lines_1_lines pi (er c ++ data) true) as (ls2 & H2 & Hn2 & _ & Hp2).
  destruct (show_lines_1 pi (op c ++ data) false) as [tr1 rest1].
  destruct (show_lines_1 pi (er c ++ data) true) as [tr2 rest2].
  cbn [fst snd op er] in *. subst tr1 tr2. repeat split; eauto.
Qed.

(** X12: blank lines of a child's output are dropped: of the lines that
    one chunk of data emits, only the first can be empty. *)
Theorem data_drops_blank_lines :
  forall (pi : procinfo) (c : capture) (data : string),
    (exists ls,
        snd (on_stdout_data pi c data) = map (fun l => out pi l false) ls /\
        Forall (fun l => l <> EmptyString) (tl ls))
    /\ (exists ls,
           snd (on_stderr_data pi c data) = map (fun l => out pi l true) ls /\
           Forall (fun l => l <> EmptyString) (tl ls)).
Proof.
  intros pi c data. unfold on_stdout_data, on_stderr_data.
  destruct (show_lines_1_lines pi (op c ++ data) false) as (ls1 & H1 & _ & Hm1 & _).
  destruct (show_lines_1_lines pi (er c ++ data) true) as (ls2 & H2 & _ & Hm2 & _).
  destruct (show_lines_1 pi (op c ++ data) false) as [tr1 rest1].
  destruct (show_lines_1 pi (er c ++ data) true) as [tr2 rest2].
  cbn [fst snd] in *. subst tr1 tr2. split; eauto.
Qed.

Lemma split_scan_prefix (seg : string) :
  forall acc s,
    no_newline seg = true ->
    split_scan acc false (seg ++ s) = split_scan (acc ++ seg) false s.
Proof.
  induction seg as [|x seg IH]; intros acc s Hseg.
  - simpl. now rewrite append_empty_r.
  - unfold no_newline in Hseg. simpl in Hseg.
    apply andb_true_iff in Hseg as [Hx Hseg]. apply negb_true_iff in Hx.
    simpl. rewrite Hx. rewrite (IH _ _ Hseg).
    now rewrite append_assoc.
Qed.

Lemma split_scan_not_nil (s : string) :
  forall seg b, split_scan seg b s <> [].
Proof.
  induction s as [|c s IH]; intros seg b; simpl; [discriminate|].
  destruct (is_newline c); [destruct b|]; auto; discriminate.
Qed.

(** X13: a chunk that starts with a newline or a carriage return ends
    the pending fragment: the fragment is emitted first, as it is, also
    when it is empty (so a CR LF pair cut between two chunks gives an
    empty line). *)
Theorem chunk_starting_with_newline_emits_the_pending_fragment :
  forall (pi : procinfo) (c : capture) (data : string),
    no_newline (op c) = true ->
    starts_with_newline data = true ->
    exists rest,
      snd (on_stdout_data pi c data) = out pi (op c) false :: rest.
Proof.
  intros pi c data Hop Hdata. unfold on_stdout_data, show_lines_1.
  destruct data as [|ch r]; [discriminate|]. simpl in Hdata.
  assert (Hne : ((op c ++ String ch r) =? "")%string = false)
    by (destruct (op c); reflexivity).
  rewrite Hne. unfold split_newlines.
  rewrite (split_scan_prefix (op c) "" (String ch r) Hop).
  simpl. rewrite Hdata.
  pose proof (split_scan_not_nil r "" true) as Hnil.
  destruct (split_scan "" true r) as [|x l]; [contradiction|].
  cbn. eauto.
Qed.

Lemma chunk_starting_with_newline_emits_the_pending_fragment_witness :
  exists rest,
    snd (on_stdout_data logged
           (fst (on_stdout_data logged empty_capture ("abc" ++ CR)))
           (LF ++ "def" ++ LF))
    = fs_appendFile "process2.log" LF :: rest.
Proof.
  exact (chunk_starting_with_newline_emits_the_pending_fragment logged
           (fst (on_stdout_data logged empty_capture ("abc" ++ CR)))
           (LF ++ "def" ++ LF) eq_refl eq_refl).
Defined.

(** ** The writes to a log file *)

Lemma all_chars_trimStart (p : ascii -> bool) (s : string) :
  all_chars p s = true -> all_chars p (trimStart s) = true.
Proof.
  induction s as [|c s IH]; simpl; [reflexivity|].
  intros H. destruct (is_js_space c); [|exact H].
  apply andb_true_iff in H as [_ H]. auto.
Qed.

Lemma all_chars_trimEnd (p : ascii -> bool) (s : string) :
  all_chars p s = true -> all_chars p (trimEnd s) = true.
Proof.
  induction s as [|c s IH]; simpl; [reflexivity|].
  intros H. apply andb_true_iff in H as [Hc Hs].
  destruct (is_js_space c && (trimEnd s =? "")); [reflexivity|].
  simpl. now rewrite Hc, IH.
Qed.

Lemma no_newline_trim (s : string) :
  no_newline s = true -> no_newline (trim s) = true.
Proof.
  intros H. unfold trim, no_newline. now apply all_chars_trimEnd, all_chars_trimStart.
Qed.

Lemma line_write_out (pi : procinfo) (line : string) (iserr : bool) :
  no_newline line = true -> line_write (out pi line iserr).
Proof.
  intros H. unfold out. destruct (as_truthy (log pi)).
  - simpl. exists line. split; [reflexivity | exact H].
  - now destruct iserr.
Qed.

Lemma line_write_invoke (c : callback) (arg : jsval) :
  Forall line_write (invoke c arg).
Proof.
  unfold invoke. destruct c; [repeat constructor|].
  destruct (truthy arg); repeat constructor.
Qed.

Lemma line_write_invoke_cb (pi : procinfo) (arg : jsval) :
  Forall line_write (invoke_cb pi arg).
Proof.
  unfold invoke_cb. destruct (cb pi); [apply line_write_invoke | constructor].
Qed.

Lemma line_write_lines (pi : procinfo) (iserr : bool) (ls : list string) :
  Forall (fun l => no_newline l = true) ls ->
  Forall line_write (map (fun l => out pi l iserr) ls).
Proof.
  induction 1; simpl; constructor; auto using line_write_out.
Qed.

(** A listener of data keeps a closure clean and writes lines. *)
Lemma on_stdout_data_clean (pi : procinfo) (c : capture) (data : string) :
  clean_capture c = true ->
  clean_capture (fst (on_stdout_data pi c data)) = true /\
  Forall line_write (snd (on_stdout_data pi c data)).
Proof.
  intros Hc. apply andb_true_iff in Hc as [_ Her]. unfold on_stdout_data.
  destruct (show_lines_1_lines pi (op c ++ data) false) as (ls & H1 & Hn & _ & Hp).
  destruct (show_lines_1 pi (op c ++ data) false) as [tr rest].
  cbn [fst snd] in *. subst tr. split.
  - unfold clean_capture. cbn [op er]. now rewrite Hp, Her.
  - now apply line_write_lines.
Qed.

Lemma on_stderr_data_clean (pi : procinfo) (c : capture) (data : string) :
  clean_capture c = true ->
  clean_capture (fst (on_stderr_data pi c data)) = true /\
  Forall line_write (snd (on_stderr_data pi c data)).
Proof.
  intros Hc. apply andb_true_iff in Hc as [Hop _]. unfold on_stderr_data.
  destruct (show_lines_1_lines pi (er c ++ data) true) as (ls & H1 & Hn & _ & Hp).
  destruct (show_lines_1 pi (er c ++ data) true) as [tr rest].
  cbn [fst snd] in *. subst tr. split.
  - unfold clean_capture. cbn [op er]. now rewrite Hp, Hop.
  - now apply line_write_lines.
Qed.

Lemma captureOutput_flush_clean (pi : procinfo) (c : capture) :
  clean_capture c = true ->
  clean_capture (fst (captureOutput_flush pi c)) = true /\
  Forall line_write (snd (captureOutput_flush pi c)).
Proof.
  intros Hc. apply andb_true_iff in Hc as [Hop Her].
  unfold captureOutput_flush. cbn [fst snd]. split; [reflexivity|].
  apply Forall_app. split.
  - destruct (negb (op c =? "") && negb (trim (op c) =? "")); constructor;
      [apply line_write_out; now apply no_newline_trim | constructor].
  - destruct (negb (er c =? "") && negb (trim (er c) =? "")); constructor;
      [apply line_write_out; now apply no_newline_trim | constructor].
Qed.

Lemma Forall_set_nth {A : Type} (P : A -> Prop) (l : list A) :
  forall i x, P x -> Forall P l -> Forall P (set_nth i x l).
Proof.
  induction l as [|h t IH]; intros [|i] x Hx Hl; simpl; auto;
    inversion Hl; subst; constructor; auto.
Qed.

Lemma with_capture_clean (pi : procinfo) (st : state) f :
  (forall c, clean_capture c = true ->
             clean_capture (fst (f c)) = true /\ Forall line_write (snd (f c))) ->
  clean st ->
  clean (fst (with_capture pi st f)) /\
  Forall line_write (snd (with_capture pi st f)).
Proof.
  intros Hf Hst. unfold with_capture.
  destruct (flush pi) as [a|]; [|split; [exact Hst | constructor]].
  destruct (nth_error (heap st) a) as [c|] eqn:Hc;
    [|split; [exact Hst | constructor]].
  assert (Hclean : clean_capture c = true).
  { unfold clean in Hst. rewrite Forall_forall in Hst.
    apply Hst. eapply nth_error_In. exact Hc. }
  destruct (Hf c Hclean) as [H1 H2]. destruct (f c) as [c' tr].
  cbn [fst snd] in *. split; [|exact H2].
  unfold clean, set_heap. cbn [heap]. now apply Forall_set_nth.
Qed.

Lemma deliver_clean (i : nat) (ev : child_event) (st : state) :
  clean st ->
  clean (fst (deliver i ev st)) /\ Forall line_write (snd (deliver i ev st)).
Proof.
  intros Hst. unfold deliver.
  destruct (nth_error (REG st) i) as [pi|]; [|split; [exact Hst | constructor]].
  destruct (child pi); [|split; [exact Hst | constructor]].
  pose proof (with_capture_clean pi st (captureOutput_flush pi)
                (captureOutput_flush_clean pi) Hst) as Hflush.
  destruct ev as [data | data | err | code signal | code signal].
  - apply with_capture_clean; [|exact Hst]. intros cap. apply on_stdout_data_clean.
  - apply with_capture_clean; [|exact Hst]. intros cap. apply on_stderr_data_clean.
  - unfold on_error, run_flush.
    destruct (with_capture pi st (captureOutput_flush pi)) as [st' tr].
    cbn [fst snd] in *. destruct Hflush as [H1 H2]. split; [exact H1|].
    apply Forall_app. split; [exact H2 | apply line_write_invoke_cb].
  - unfold on_done_1, run_flush.
    destruct (with_capture pi st (captureOutput_flush pi)) as [st' tr].
    cbn [fst snd] in *. destruct Hflush as [H1 H2].
    destruct (truthy_code code || truthy_signal signal); cbn [fst snd];
      (split; [exact H1|]); apply Forall_app;
      (split; [exact H2 | apply line_write_invoke_cb]).
  - unfold on_done_1, run_flush.
    destruct (with_capture pi st (captureOutput_flush pi)) as [st' tr].
    cbn [fst snd] in *. destruct Hflush as [H1 H2].
    destruct (truthy_code code || truthy_signal signal); cbn [fst snd];
      (split; [exact H1|]); apply Forall_app;
      (split; [exact H2 | apply line_write_invoke_cb]).
Qed.

Lemma start_clean (rt : runtime) (pi : option procinfo) (f : option nat)
    (st : state) :
  clean st ->
  clean (state_of (start rt pi f st)) /\
  Forall line_write (trace_of (start rt pi f st)).
Proof.
  intros Hst. split.
  - destruct (start_states rt pi f st) as [-> | [(e & -> & _) | (e & -> & _)]];
      [exact Hst| |exact Hst].
    unfold clean. cbn [heap]. apply Forall_app. split; [exact Hst|].
    repeat constructor.
  - unfold start. destruct pi as [pi|]; [|apply line_write_invoke].
    destruct (negb (is_truthy (script pi)) && negb (is_truthy (cwd pi)));
      [apply line_write_invoke|].
    assert (Hread : Forall line_write (fst (get_script_1 rt (entry_of pi (effective f))))).
    { unfold get_script_1. destruct (as_truthy (script _)); [constructor|].
      destruct (cwd _); [|constructor].
      destruct (readFile rt _); repeat constructor. }
    destruct (get_script_1 rt (entry_of pi (effective f))) as [tr [v|e]];
      cbn [fst trace_of] in *; [|exact Hread].
    destruct (on_script_cases rt (effective f) (entry_of pi (effective f)) v st)
      as [(msg & ->) | [(e & ->) | [(ch & _ & _ & ->) | (ch & e & _ & _ & ->)]]];
      cbn [prepend trace_of]; apply Forall_app; split; auto.
    + apply line_write_invoke.
    + constructor; [exact I | apply line_write_invoke].
    + repeat constructor.
Qed.

Lemma line_write_forEach (l : list procinfo) (body : nat -> procinfo -> list effect) :
  (forall i pi, Forall line_write (body i pi)) ->
  forall i, Forall line_write (forEach_from i l body).
Proof.
  intros Hbody. induction l as [|pi l IH]; intros i; simpl; [constructor|].
  apply Forall_app. split; auto.
Qed.

Lemma step_clean (rt : runtime) (a : action) (st : state) :
  clean st ->
  clean (state_of (step rt a st)) /\ Forall line_write (trace_of (step rt a st)).
Proof.
  intros Hst. destruct a as [pi f | n | n | | hook | i ev | err]; simpl.
  - now apply start_clean.
  - split; [exact Hst|]. apply line_write_forEach. intros i pi.
    destruct (name_eqb (name pi) n); repeat constructor.
  - split; [exact Hst|]. apply line_write_forEach. intros i pi.
    destruct (name_eqb (name pi) n); repeat constructor.
  - split; [exact Hst|]. apply line_write_forEach. intros i pi. repeat constructor.
  - split; [exact Hst | constructor].
  - unfold done. cbn [state_of trace_of]. now apply deliver_clean.
  - unfold appendFile_callback. destruct (truthy err); simpl;
      (split; [exact Hst | constructor]).
Qed.

Lemma run_clean (rt : runtime) (acts : list action) :
  forall st,
    clean st ->
    clean (state_of (run rt acts st)) /\
    Forall line_write (trace_of (run rt acts st)).
Proof.
  induction acts as [|a acts IH]; intros st Hst; simpl;
    [split; [exact Hst | constructor]|].
  destruct (step_clean rt a st Hst) as [H1 H2].
  destruct (step rt a st) as [st1 tr1 | e st1 tr1]; cbn [state_of trace_of] in *;
    [|split; assumption].
  destruct (IH st1 H1) as [H3 H4].
  destruct (run rt acts st1) as [st2 tr2 | e st2 tr2]; cbn [state_of trace_of] in *;
    (split; [exact H3 | apply Forall_app; split; assumption]).
Qed.

(** X14: the log files hold one line per write: in any run of the
    supervisor from its initial state, whatever the chunks and the
    events, each write to a log file is a text without newline or
    carriage return followed by one newline; and no pending fragment
    ever holds a newline. *)
Theorem log_writes_are_single_lines :
  forall (rt : runtime) (acts : list action),
    Forall line_write (trace_of (run rt acts initial)) /\
    clean (state_of (run rt acts initial)).
Proof.
  intros rt acts.
  destruct (run_clean rt acts initial) as [H1 H2]; [constructor|].
  split; assumption.
Qed.

(** ** The two streams, and the sink *)

Lemma Forall_map_out (Q : effect -> Prop) (pi : procinfo) (iserr : bool) :
  (forall l, Q (out pi l iserr)) ->
  forall f, Forall Q (fst (show_lines_1 pi f iserr)).
Proof.
  intros HQ f. unfold show_lines_1. destruct (f =? ""); [constructor|].
  cbn [fst]. induction (removelast (split_newlines f)); simpl; constructor; auto.
Qed.

Lemma Forall_flush (Q : effect -> Prop) (pi : procinfo) (c : capture) :
  (forall l iserr, Q (out pi l iserr)) ->
  Forall Q (snd (captureOutput_flush pi c)).
Proof.
  intros HQ. unfold captureOutput_flush. cbn [snd]. apply Forall_app. split.
  - destruct (negb (op c =? "") && negb (trim (op c) =? "")); repeat constructor; auto.
  - destruct (negb (er c =? "") && negb (trim (er c) =? "")); repeat constructor; auto.
Qed.

Lemma Forall_on_stdout_data (Q : effect -> Prop) (pi : procinfo) (c : capture)
    (data : string) :
  (forall l, Q (out pi l false)) ->
  Forall Q (snd (on_stdout_data pi c data)).
Proof.
  intros HQ. unfold on_stdout_data.
  pose proof (Forall_map_out Q pi false HQ (op c ++ data)) as H.
  now destruct (show_lines_1 pi (op c ++ data) false).
Qed.

Lemma Forall_on_stderr_data (Q : effect -> Prop) (pi : procinfo) (c : capture)
    (data : string) :
  (forall l, Q (out pi l true)) ->
  Forall Q (snd (on_stderr_data pi c data)).
Proof.
  intros HQ. unfold on_stderr_data.
  pose proof (Forall_map_out Q pi true HQ (er c ++ data)) as H.
  now destruct (show_lines_1 pi (er c ++ data) true).
Qed.

Lemma no_console_log_invoke_cb (pi : procinfo) (arg : jsval) :
  Forall (fun e => is_console_log e = false) (invoke_cb pi arg).
Proof.
  unfold invoke_cb, invoke. destruct (cb pi) as [[n|]|]; repeat constructor.
  destruct (truthy arg); repeat constructor.
Qed.

(** X15: with a log file, the output of a child never reaches the
    console: no event of the child writes with [console.log], and a
    chunk of data gives nothing but appends to that file.  With no log
    file, a chunk of the normal stream gives nothing but [console.log]
    lines and a chunk of the error stream nothing but [console.error]
    lines. *)
Theorem output_goes_to_the_log_or_to_the_console :
  forall (st : state) (i : nat) (pi : procinfo) (ev : child_event),
    nth_error (REG st) i = Some pi ->
    (forall file,
        as_truthy (log pi) = Some file ->
        Forall (fun e => is_console_log e = false) (snd (deliver i ev st)) /\
        (terminal ev = false ->
         Forall (fun e => exists data, e = fs_appendFile file data)
           (snd (deliver i ev st))))
    /\ (as_truthy (log pi) = None ->
        (forall data, ev = stdout_data data ->
           Forall (fun e => exists l, e = console_log l) (snd (deliver i ev st))) /\
        (forall data, ev = stderr_data data ->
           Forall (fun e => exists l, e = console_error (VStr l))
             (snd (deliver i ev st)))).
Proof.
  intros st i pi ev Hpi. unfold deliver. rewrite Hpi. split.
  - intros file Hlog.
    assert (Hout : forall l iserr, out pi l iserr = fs_appendFile file (l ++ LF))
      by (intros; unfold out; now rewrite Hlog).
    destruct (child pi);
      [|split; [constructor | intros _; constructor]].
    assert (Hflush : Forall (fun e => is_console_log e = false)
                       (snd (run_flush pi st))).
    { unfold run_flush. apply with_capture_trace; [constructor|]. intros cap.
      apply Forall_flush. intros l iserr. now rewrite Hout. }
    destruct ev as [data | data | err | code signal | code signal].
    + split; [|intros _]; (apply with_capture_trace; [constructor|]); intros cap;
        apply Forall_on_stdout_data; intros l; rewrite Hout; eauto.
    + split; [|intros _]; (apply with_capture_trace; [constructor|]); intros cap;
        apply Forall_on_stderr_data; intros l; rewrite Hout; eauto.
    + split; [|discriminate]. unfold on_error.
      destruct (run_flush pi st) as [st' tr]. cbn [snd] in *.
      apply Forall_app. split; [exact Hflush | apply no_console_log_invoke_cb].
    + split; [|discriminate]. unfold on_done_1.
      destruct (run_flush pi st) as [st' tr]. cbn [snd] in *.
      destruct (truthy_code code || truthy_signal signal); cbn [snd];
        apply Forall_app; (split; [exact Hflush | apply no_console_log_invoke_cb]).
    + split; [|discriminate]. unfold on_done_1.
      destruct (run_flush pi st) as [st' tr]. cbn [snd] in *.
      destruct (truthy_code code || truthy_signal signal); cbn [snd];
        apply Forall_app; (split; [exact Hflush | apply no_console_log_invoke_cb]).
  - intros Hlog.
    assert (Hout : forall l iserr,
               out pi l iserr
               = if iserr then console_error (VStr l) else console_log l)
      by (intros; unfold out; now rewrite Hlog).
    split; intros data ->.
    + destruct (child pi); [|constructor].
      apply with_capture_trace; [constructor|]. intros cap.
      apply Forall_on_stdout_data. intros l. rewrite Hout. eauto.
    + destruct (child pi); [|constructor].
      apply with_capture_trace; [constructor|]. intros cap.
      apply Forall_on_stderr_data. intros l. rewrite Hout. eauto.
Qed.

Lemma output_goes_to_the_log_or_to_the_console_witness :
  Forall (fun e => exists l, e = console_log l)
    (snd (deliver 0 (stdout_data ("up" ++ LF)) running_ok)).
Proof.
  exact (proj1 (proj2 (output_goes_to_the_log_or_to_the_console running_ok 0 _
                         (stdout_data ("up" ++ LF)) eq_refl) eq_refl)
           _ eq_refl).
Defined.

(** ** Terminal events, again *)





(** ** One closure for each entry *)

Lemma nth_error_pushed_cases {A : Type} (l : list A) (x y : A) (k : nat) :
  nth_error (l ++ [x]) k = Some y ->
  (k < List.length l /\ nth_error l k = Some y) \/ (k = List.length l /\ y = x).
Proof.
  intros Hk. destruct (Nat.lt_ge_cases k (List.length l)) as [Hlt|Hge].
  - left. split; [exact Hlt|]. now rewrite nth_error_app1 in Hk.
  - right. rewrite nth_error_app2 in Hk by exact Hge.
    destruct (k - List.length l) as [|m] eqn:Hm.
    + injection Hk as <-. split; [lia | reflexivity].
    + destruct m; discriminate Hk.
Qed.

Lemma separate_start (rt : runtime) (pi : option procinfo) (f : option nat)
    (st : state) :
  separate st -> separate (state_of (start rt pi f st)).
Proof.
  intros Hst.
  destruct (start_states rt pi f st) as [-> | [(e & -> & Hfl) | (e & -> & Hfl)]];
    [exact Hst| |]; intros k pk a Hk Hflush; cbn [REG heap set_REG] in *.
  - rewrite length_app. cbn [List.length].
    destruct (nth_error_pushed_cases _ _ _ _ Hk) as [[Hlt Hold] | [-> ->]].
    + destruct (Hst k pk a Hold Hflush) as [Ha Honly]. split; [lia|].
      intros k' pk' Hk' Hflush'.
      destruct (nth_error_pushed_cases _ _ _ _ Hk') as [[_ Hold'] | [_ ->]].
      * now apply (Honly k' pk').
      * rewrite Hfl in Hflush'. injection Hflush' as <-. lia.
    + rewrite Hfl in Hflush. injection Hflush as <-. split; [lia|].
      intros k' pk' Hk' Hflush'.
      destruct (nth_error_pushed_cases _ _ _ _ Hk') as [[_ Hold'] | [-> _]];
        [|reflexivity].
      destruct (Hst k' pk' _ Hold' Hflush') as [Ha _]. lia.
  - destruct (nth_error_pushed_cases _ _ _ _ Hk) as [[Hlt Hold] | [-> ->]];
      [|congruence].
    destruct (Hst k pk a Hold Hflush) as [Ha Honly]. split; [exact Ha|].
    intros k' pk' Hk' Hflush'.
    destruct (nth_error_pushed_cases _ _ _ _ Hk') as [[_ Hold'] | [_ ->]];
      [|congruence].
    now apply (Honly k' pk').
Qed.

Lemma separate_step (rt : runtime) (a : action) (st : state) :
  separate st -> separate (state_of (step rt a st)).
Proof.
  intros Hst. destruct a as [pi f | n | n | | hook | i ev | err]; simpl;
    try exact Hst.
  - now apply separate_start.
  - unfold done. cbn [state_of].
    destruct (deliver_frame i ev st) as (h & -> & Hlen & _).
    intros k pk a Hk Hflush. cbn [REG heap set_heap] in *. rewrite Hlen.
    exact (Hst k pk a Hk Hflush).
  - now destruct (appendFile_callback err).
Qed.

Lemma separate_run_through (rt : runtime) (acts : list action) :
  forall st, separate st -> separate (fst (run_through rt acts st)).
Proof.
  induction acts as [|a acts IH]; intros st Hst; simpl; [exact Hst|].
  specialize (IH _ (separate_step rt a st Hst)).
  now destruct (run_through rt acts (state_of (step rt a st))).
Qed.

Lemma separate_initial : separate initial.
Proof.
  intros [|k] pk a Hk; discriminate Hk.
Qed.

(** X17: the entries do not share their accumulators: in any state
    reached from the initial one, whether or not an exception escaped on
    the way, the closure of an entry is the closure of no other entry,
    and an event of the child of another entry leaves its pending
    fragments as they were.  An entry whose launch threw has no closure
    and takes part in nothing. *)
Theorem events_of_one_child_leave_the_others_alone :
  forall (rt : runtime) (acts : list action) (i j : nat) (pj : procinfo)
         (a : nat) (ev : child_event),
    i <> j ->
    nth_error (REG (fst (run_through rt acts initial))) j = Some pj ->
    flush pj = Some a ->
    a < List.length (heap (fst (run_through rt acts initial))) /\
    (forall k pk,
        nth_error (REG (fst (run_through rt acts initial))) k = Some pk ->
        flush pk = Some a -> k = j) /\
    nth_error (heap (fst (deliver i ev (fst (run_through rt acts initial))))) a
    = nth_error (heap (fst (run_through rt acts initial))) a.
Proof.
  intros rt acts i j pj a ev Hij Hj Hfl.
  destruct (separate_run_through rt acts initial separate_initial j pj a Hj Hfl)
    as [Ha Honly].
  split; [exact Ha|]. split; [exact Honly|].
  destruct (deliver_frame i ev (fst (run_through rt acts initial)))
    as (h & -> & _ & Hother).
  cbn [heap set_heap]. apply Hother.
  intros pi Hi Hfli. apply Hij. exact (Honly i pi Hi Hfli).
Qed.

Lemma events_of_one_child_leave_the_others_alone_witness :
  List.length (REG (fst (run_through sample_runtime three_starts initial))) = 3 /\
  1 < List.length (heap (fst (run_through sample_runtime three_starts initial))) /\
  (forall k pk,
      nth_error (REG (fst (run_through sample_runtime three_starts initial))) k
      = Some pk ->
      flush pk = Some 1 -> k = 2) /\
  nth_error
    (heap (fst (deliver 0 (stdout_data "x")
                  (fst (run_through sample_runtime three_starts initial))))) 1
  = nth_error (heap (fst (run_through sample_runtime three_starts initial))) 1.
Proof.
  split; [reflexivity|].
  exact (events_of_one_child_leave_the_others_alone sample_runtime three_starts
           0 2 (nth 2 (REG (fst (run_through sample_runtime three_starts initial)))
                  fail2)
           1 (stdout_data "x") (O_S 1) eq_refl eq_refl).
Defined.

(** ** The callback of [start] *)

(** X18: [start] calls its callback exactly once when it returns, with
    an error or with nothing, and not at all when an exception escapes
    from it.  The exception leaves the state as it was when it comes
    from the manifest or from [path.extname]; when it is the exception
    of [proc.spawn] or [proc.fork], the entry is on the registry
    already, with no child and no closure. *)
Theorem start_calls_back_once_or_throws :
  forall (rt : runtime) (pi : option procinfo) (f : option nat) (st : state),
    match start rt pi f st with
    | Done _ tr =>
        exists arg, callback_calls tr = [(effective f, arg)]
    | Uncaught e st' tr =>
        callback_calls tr = [] /\
        ((launches tr = [] /\ st' = st)
         \/ (exists ch ent,
                launches tr = [ch] /\
                launch_throws rt ch = Some e /\
                st' = set_REG (REG st ++ [ent]) st /\
                child ent = None /\ flush ent = None))
    end.
Proof.
  intros rt pi f st. unfold start.
  destruct pi as [pi|]; [|eexists; apply callback_calls_invoke].
  destruct (negb (is_truthy (script pi)) && negb (is_truthy (cwd pi)));
    [eexists; apply callback_calls_invoke|].
  destruct (get_script_1_quiet rt (entry_of pi (effective f))) as [Hl Hc].
  destruct (get_script_1 rt (entry_of pi (effective f))) as [tr [v|e]];
    cbn [fst] in Hl, Hc; [|split; [exact Hc | now left]].
  destruct (on_script_cases rt (effective f) (entry_of pi (effective f)) v st)
    as [(msg & ->) | [(e & ->) | [(ch & _ & _ & ->) | (ch & e & _ & Hthrow & ->)]]];
    cbn [prepend].
  - eexists. now rewrite callback_calls_app, Hc, callback_calls_invoke.
  - rewrite app_nil_r. split; [exact Hc | now left].
  - eexists. rewrite callback_calls_app, Hc. cbn [callback_calls app].
    now rewrite callback_calls_invoke.
  - split; [now rewrite callback_calls_app, Hc|].
    right. eexists ch, _. rewrite (launches_refused _ _ Hl).
    repeat split; auto.
Qed.

Lemma truthy_message (s : string) :
  truthy (VStr ("Don't know how to start " ++ s)) = true.
Proof.
  reflexivity.
Qed.

(** X19: without a callback a configuration error is not lost: [start]
    writes its message with [console.error], once, and nothing else to
    the console. *)
Theorem start_without_callback_reports_on_the_console :
  forall (rt : runtime) (pi : option procinfo) (st : state) (msg : string),
    configuration_error rt DefaultCb pi msg ->
    exists tr,
      start rt pi None st
      = Done st (tr ++ [call_cb DefaultCb (VStr msg); console_error (VStr msg)]) /\
      filter is_output tr = [].
Proof.
  intros rt pi st msg H. unfold start. cbn [effective].
  destruct H as [ | pi Hs Hc | pi v Hsc Hget Hv | pi s Hsc Hget Hs Hjs Hpy ].
  - exists []. split; reflexivity.
  - rewrite Hs, Hc. exists []. split; reflexivity.
  - apply orb_true_iff in Hsc.
    assert (Hg : negb (is_truthy (script pi)) && negb (is_truthy (cwd pi)) = false)
      by (destruct Hsc as [-> | ->]; [reflexivity | apply andb_false_r]).
    rewrite Hg.
    pose proof (get_script_1_reads_only rt (entry_of pi DefaultCb)) as Ho.
    destruct (get_script_1 rt (entry_of pi DefaultCb)) as [tr r].
    cbn [fst snd] in *. subst r.
    unfold on_script. rewrite Hv. cbn [negb prepend].
    exists tr. split; [reflexivity | exact Ho].
  - apply orb_true_iff in Hsc.
    assert (Hg : negb (is_truthy (script pi)) && negb (is_truthy (cwd pi)) = false)
      by (destruct Hsc as [-> | ->]; [reflexivity | apply andb_false_r]).
    rewrite Hg.
    pose proof (get_script_1_reads_only rt (entry_of pi DefaultCb)) as Ho.
    destruct (get_script_1 rt (entry_of pi DefaultCb)) as [tr r].
    cbn [fst snd] in *. subst r.
    rewrite (on_script_unknown rt DefaultCb _ s st Hs Hjs Hpy). cbn [prepend].
    exists tr. split; [|exact Ho].
    unfold invoke. now rewrite truthy_message.
Qed.

Lemma start_without_callback_reports_on_the_console_witness :
  exists tr,
    start sample_runtime (Some fail2) None running_ok
    = Done running_ok
        (tr ++ [call_cb DefaultCb (VStr "Don't know how to start ./tester");
                console_error (VStr "Don't know how to start ./tester")]) /\
    filter is_output tr = [].
Proof.
  apply (start_without_callback_reports_on_the_console sample_runtime (Some fail2)
           running_ok "Don't know how to start ./tester").
  apply (unknown_script_type sample_runtime DefaultCb fail2 "./tester");
    first [reflexivity | vm_compute; discriminate].
Defined.

(** ** Nothing but newlines is lost *)

Lemma strip_append (a b : string) :
  strip_newlines (a ++ b) = (strip_newlines a ++ strip_newlines b)%string.
Proof.
  induction a as [|c a IH]; simpl; [reflexivity|].
  destruct (is_newline c); simpl; now rewrite IH.
Qed.

Lemma strip_no_newline (s : string) :
  no_newline s = true -> strip_newlines s = s.
Proof.
  unfold no_newline. induction s as [|c s IH]; simpl; [reflexivity|].
  intros H. apply andb_true_iff in H as [Hc Hs]. apply negb_true_iff in Hc.
  rewrite Hc. now rewrite IH.
Qed.

Lemma strip_newline_run (s : string) :
  newline_run s = true -> strip_newlines s = EmptyString.
Proof.
  unfold newline_run. intros H. apply andb_true_iff in H as [_ H].
  induction s as [|c s IH]; simpl in *; [reflexivity|].
  apply andb_true_iff in H as [Hc Hs]. rewrite Hc. auto.
Qed.

Lemma splits_join (f : string) (lines : list string) :
  splits_on_newline_runs f lines -> join lines = strip_newlines f.
Proof.
  induction 1 as [line Hline | line sep rest lines Hline Hsep Hrest Hsplit IH].
  - simpl. now rewrite append_empty_r, strip_no_newline.
  - simpl. rewrite !strip_append, (strip_no_newline line Hline),
      (strip_newline_run sep Hsep), IH. reflexivity.
Qed.

Lemma join_removelast (ls : list string) :
  ls <> [] -> (join (removelast ls) ++ last ls "")%string = join ls.
Proof.
  induction ls as [|l ls IH]; intros Hne; [contradiction|].
  destruct ls as [|l' ls'].
  - simpl. now rewrite append_empty_r.
  - change (removelast (l :: l' :: ls')) with (l :: removelast (l' :: ls')).
    change (last (l :: l' :: ls') "") with (last (l' :: ls') "").
    replace (join (l :: removelast (l' :: ls')))
      with (l ++ join (removelast (l' :: ls')))%string by reflexivity.
    rewrite append_assoc, IH by discriminate. reflexivity.
Qed.

Lemma join_app (a b : list string) :
  join (a ++ b) = (join a ++ join b)%string.
Proof.
  induction a as [|x a IH]; simpl; [reflexivity|].
  now rewrite IH, append_assoc.
Qed.

Lemma splits_not_nil (f : string) (lines : list string) :
  splits_on_newline_runs f lines -> lines <> [].
Proof.
  destruct 1; discriminate.
Qed.

Lemma show_lines_1_keeps_the_text (pi : procinfo) (f : string) (iserr : bool) :
  exists ls,
    fst (show_lines_1 pi f iserr) = map (fun l => out pi l iserr) ls /\
    (join ls ++ snd (show_lines_1 pi f iserr))%string = strip_newlines f /\
    no_newline (snd (show_lines_1 pi f iserr)) = true.
Proof.
  destruct (show_lines_1_spec pi f iserr) as (lines & Hsplit & ->).
  exists (removelast lines). cbn [fst snd]. repeat split.
  - rewrite (join_removelast lines (splits_not_nil f lines Hsplit)).
    now apply splits_join.
  - apply Forall_last; [reflexivity | now apply splits_no_newline with f].
Qed.

Lemma on_stdout_data_keeps_the_text (pi : procinfo) (c : capture) (data : string) :
  exists ls rest,
    on_stdout_data pi c data
    = ({| op := rest; er := er c |}, map (fun l => out pi l false) ls) /\
    (join ls ++ rest)%string = strip_newlines (op c ++ data) /\
    no_newline rest = true.
Proof.
  unfold on_stdout_data.
  destruct (show_lines_1_keeps_the_text pi (op c ++ data) false)
    as (ls & H1 & Hjoin & Hclean).
  destruct (show_lines_1 pi (op c ++ data) false) as [tr rest].
  cbn [fst snd] in *. subst tr. exists ls, rest. repeat split; assumption.
Qed.

(** X20: the line assembler loses nothing but newlines of the texts it
    is given.  The texts are what [op += data] appends, chunk by chunk:
    a chunk that is a Buffer is decoded on its own, so the bytes of a
    character cut between two chunks are not put together again, and
    what the decoding makes of them is the text meant here; the texts
    of this development have code units below 256.  Over any sequence
    of such texts on the normal stream, from a pending fragment that
    holds no newline, the lines emitted, in order, followed by the
    fragment left pending, are the pending fragment followed by the
    texts put end to end without their newline and carriage-return
    characters; the accumulator of the error stream is left alone. *)
Theorem line_assembler_keeps_the_text :
  forall (pi : procinfo) (chunks : list string) (c : capture),
    no_newline (op c) = true ->
    exists ls,
      snd (feed (on_stdout_data pi) c chunks) = map (fun l => out pi l false) ls /\
      (join ls ++ op (fst (feed (on_stdout_data pi) c chunks)))%string
      = (op c ++ strip_newlines (join chunks))%string /\
      er (fst (feed (on_stdout_data pi) c chunks)) = er c.
Proof.
  intros pi chunks. induction chunks as [|data chunks IH]; intros c Hc.
  - exists []. simpl. rewrite append_empty_r. repeat split.
  - destruct (on_stdout_data_keeps_the_text pi c data)
      as (ls1 & rest1 & Heq & Hjoin & Hclean).
    simpl feed. rewrite Heq.
    destruct (IH {| op := rest1; er := er c |} Hclean) as (ls2 & H2 & Hjoin2 & Her).
    destruct (feed (on_stdout_data pi) {| op := rest1; er := er c |} chunks)
      as [c2 tr2].
    cbn [fst snd op er] in *. subst tr2.
    exists (ls1 ++ ls2). rewrite map_app, join_app. repeat split; [|exact Her].
    rewrite append_assoc, Hjoin2, <- append_assoc, Hjoin.
    change (join (data :: chunks)) with (data ++ join chunks)%string.
    rewrite !strip_append, (strip_no_newline _ Hc).
    now rewrite append_assoc.
Qed.

Lemma line_assembler_keeps_the_text_witness :
  exists ls,
    snd (feed (on_stdout_data logged) empty_capture cut_chunks)
    = map (fun l => out logged l false) ls /\
    (join ls ++ op (fst (feed (on_stdout_data logged) empty_capture cut_chunks)))%string
    = ("" ++ strip_newlines (join cut_chunks))%string /\
    er (fst (feed (on_stdout_data logged) empty_capture cut_chunks)) = "".
Proof.
  exact (line_assembler_keeps_the_text logged cut_chunks empty_capture eq_refl).
Defined.

(** The chunks of [cut_chunks]: the CR LF pair cut in two gives an empty
    line between "def" and the pending "ghi". *)
Example cut_chunks_lines :
  snd (feed (on_stdout_data fail2) empty_capture cut_chunks)
  = [console_log "abc"; console_log "def"; console_log ""]
  /\ op (fst (feed (on_stdout_data fail2) empty_capture cut_chunks)) = "ghi".
Proof. split; reflexivity. Qed.
